(** * A sharded publish/subscribe event emitter

    Shallow embedding of package [event_emitter]: the configuration
    normalisation, the per-subscriber metadata store ([smap]), the buckets with
    their topic tables, and the emitter facade on top of them.

    Conventions of the embedding.
    - [int64] values are [Z] with the two's complement wrap-around written out;
      [uint64] conversions are [mod 2^64].
    - Go maps are [gmap]s.  Go iterates a map in an unspecified order, so every
      [range] over a map goes through the [order] of a [GoRuntime], of which
      only "enumerates each entry once" is known.
    - The subscriber type [T] is generic, an instance of the class
      [Subscriber] that stands for the interface of that name.  A metadata
      store is held by reference: [GetMetadata] gives a location in a heap of
      [smap]s.
    - A run-time panic (nil dereference, index out of range, failed type
      assertion) is the result [None].
    - Callbacks act on a caller-owned [World]; every call made by a publish
      is also logged as an [Event], so that "was invoked" can be stated.
      A callback does not reach the emitter or the stores: calling back into
      the bucket that is publishing would block on its mutex.
    - The mutexes have no sequential content and are left out, and so are the
      limits of memory: an allocation succeeds. *)

From stdpp Require Import base option numbers list strings pretty gmap fin_maps.
From Stdlib Require Import ZArith Lia.

Open Scope Z_scope.

(** ** Machine integers *)

Definition wrap_int64 (z : Z) : Z := (z + 2 ^ 63) `mod` 2 ^ 64 - 2 ^ 63.

Definition to_uint64 (z : Z) : Z := z `mod` 2 ^ 64.

(** ** Configuration *)

Record Config := mkConfig {
  BucketNum : Z;
  BucketSize : Z
}.

(** [toBinaryNumber]: [x := 1; for x < n { x *= 2 }; return x], with [x] an
    [int64].  Each unit of fuel pays for one evaluation of the loop
    condition. *)
Fixpoint toBinaryNumber_loop (fuel : nat) (x n : Z) : option Z :=
  match fuel with
  | O => None
  | S fuel' =>
      if x <? n then toBinaryNumber_loop fuel' (wrap_int64 (x * 2)) n
      else Some x
  end.

Definition toBinaryNumber (fuel : nat) (n : Z) : option Z :=
  toBinaryNumber_loop fuel 1 n.

Definition Config_init (fuel : nat) (c : Config) : option Config :=
  let num := if BucketNum c <=? 0 then 16 else BucketNum c in
  let size := if BucketSize c <=? 0 then 0 else BucketSize c in
  num' ← toBinaryNumber fuel num;
  Some {| BucketNum := num'; BucketSize := size |}.

(** ** Values, errors *)

(** The dynamic type [any], as far as the code distinguishes its values: a
    string or something else. *)
Inductive any :=
  | VString (s : string)
  | VInt (z : Z)
  | VNil.

(** A Go [error]: [None] is [nil]. *)
Definition error := option string.

Definition subTopic : string := "sub-topic-".

(** ** The metadata store

    [smap] is a struct of a reader/writer lock and the map [data]; it is
    identified with [data].  Stores live in a heap and are reached through
    the location a subscriber's [GetMetadata] returns; the location of no
    allocated store stands for a nil [Metadata]. *)

Definition loc := positive.

Abbreviation smap := (gmap string any).

Abbreviation Heap := (gmap loc (gmap string any)).

Definition newSmap : smap := ∅.

Definition smap_Load (c : smap) (key : string) : any * bool :=
  match c !! key with
  | Some value => (value, true)
  | None => (VNil, false)
  end.

Definition smap_Delete (c : smap) (key : string) : smap := delete key c.

Definition smap_Store (c : smap) (key : string) (value : any) : smap :=
  <[key := value]> c.

(** The loop of [smap.Range] over the entries in the order the map yields
    them.  The visitor [f] threads the variables it captures as [acc], may
    panic, and stops the loop by returning [false]. *)
Fixpoint range_entries {A} (f : string → any → A → option (A * bool))
    (entries : list (string * any)) (acc : A) : option A :=
  match entries with
  | [] => Some acc
  | (k, v) :: rest =>
      match f k v acc with
      | None => None
      | Some (acc', true) => range_entries f rest acc'
      | Some (acc', false) => Some acc'
      end
  end.

(** [StringSubscriber], the subscriber type the package provides. *)
Record StringSubscriber := mkStringSubscriber {
  id : string;
  md : loc
}.

(** The interface [Subscriber]; [GetMetadata] gives the location of the
    store. *)
Class Subscriber (T : Type) := {
  GetSubscriberID : T → string;
  GetMetadata : T → loc
}.

#[export] Instance StringSubscriber_Subscriber : Subscriber StringSubscriber := {|
  GetSubscriberID := id;
  GetMetadata := md
|}.

(** [NewSubscriber]: the id is the decimal print of [rnd], which stands for
    the result of [rand.Int63()], and the store is a new, empty [smap], at a
    location that is not in use.  The receiver is not used by the body. *)
Definition NewSubscriber (rnd : Z) (h : Heap) : StringSubscriber * Heap :=
  let l := fresh (dom h) in
  ({| id := pretty rnd; md := l |}, <[l := newSmap]> h).

Record TopicStatus := mkTopicStatus {
  Topic : string;
  Count : nat
}.

(** What the Go runtime leaves open: the seeded hash [maphash.String] (its
    result is converted to [uint64] where it is used) and the order in which
    a [range] walks a map, of which all that is known is that it visits each
    entry once. *)
Class GoRuntime := {
  maphash_String : Z → string → Z;
  order : ∀ A : Type, gmap string A → list (string * A);
  order_perm : ∀ (A : Type) (m : gmap string A), order A m ≡ₚ map_to_list m
}.

Section emitter.

(** The subscriber type, and what callbacks act on. *)
Context {T : Type} `{!Subscriber T} {World : Type} `{!GoRuntime}.

Definition smap_Range {A} (c : smap)
    (f : string → any → A → option (A * bool)) (acc : A) : option A :=
  range_entries f (order any c) acc.

(** Method calls through the [Metadata] reference of a subscriber. *)
Definition Metadata_Store (h : Heap) (l : loc) (key : string) (value : any)
    : option Heap :=
  c ← h !! l; Some (<[l := smap_Store c key value]> h).

Definition Metadata_Delete (h : Heap) (l : loc) (key : string) : option Heap :=
  c ← h !! l; Some (<[l := smap_Delete c key]> h).

Definition Metadata_Range {A} (h : Heap) (l : loc)
    (f : string → any → A → option (A * bool)) (acc : A) : option A :=
  c ← h !! l; smap_Range c f acc.

Definition Metadata_Load (h : Heap) (l : loc) (key : string)
    : option (any * bool) :=
  c ← h !! l; Some (smap_Load c key).

(** ** Callbacks and the log of calls *)

(** A callback, with the result [error] that [Subscribe] and [publish_e]
    give it. *)
Definition eventCallback := T → any → World → World * error.

Record topicElement := mkTopicElement {
  suber : T;
  cb : eventCallback
}.

(** [topicField] is a struct of the one map [subers]. *)
Abbreviation topicField := (gmap string topicElement).

Inductive Event :=
  | EvCheck (s : T) (skip : bool)
  | EvCall (s : T) (f : eventCallback) (msg : any) (err : error)
  | EvResult (s : T) (err : error).

Definition Run : Type := World * list Event.

Definition call_cb (v : topicElement) (msg : any) (r : Run) : Run * error :=
  let '(w, err) := cb v (suber v) msg r.1 in
  ((w, r.2 ++ [EvCall (suber v) (cb v) msg err]), err).

Definition call_checkSent (checkSent : T → World → World * bool) (s : T)
    (r : Run) : Run * bool :=
  let '(w, b) := checkSent s r.1 in
  ((w, r.2 ++ [EvCheck s b]), b).

Definition call_f (f : T → error → World → World) (s : T) (err : error)
    (r : Run) : Run :=
  (f s err r.1, r.2 ++ [EvResult s err]).

(** ** Buckets *)

Record bucket := mkBucket {
  Size : Z;
  Topics : gmap string (gmap string topicElement)
}.

Definition bucket_subscribe (c : bucket) (s : T) (topic : string)
    (f : eventCallback) : bucket :=
  let subId := GetSubscriberID s in
  let ele := {| suber := s; cb := f |} in
  match Topics c !! topic with
  | None =>
      let t : topicField := <[subId := ele]> ∅ in
      {| Size := Size c; Topics := <[topic := t]> (Topics c) |}
  | Some t =>
      {| Size := Size c; Topics := <[topic := <[subId := ele]> t]> (Topics c) |}
  end.

Definition publish_body (msg : any) (r : Run) (kv : string * topicElement)
    : Run :=
  (call_cb kv.2 msg r).1.

Definition bucket_publish (c : bucket) (topic : string) (msg : any) (r : Run)
    : Run :=
  match Topics c !! topic with
  | None => r
  | Some t => foldl (publish_body msg) r (order _ t)
  end.

Definition publish_e_body (msg : any)
    (checkSent : T → World → World * bool) (f : T → error → World → World)
    (r : Run) (kv : string * topicElement) : Run :=
  let v := kv.2 in
  let '(r1, skip) := call_checkSent checkSent (suber v) r in
  if negb skip then
    let '(r2, err) := call_cb v msg r1 in
    call_f f (suber v) err r2
  else r1.

Definition bucket_publish_e (c : bucket) (topic : string) (msg : any)
    (checkSent : T → World → World * bool) (f : T → error → World → World)
    (r : Run) : Run :=
  match Topics c !! topic with
  | None => r
  | Some t => foldl (publish_e_body msg checkSent f) r (order _ t)
  end.

Definition bucket_unSubscribe (c : bucket) (s : T) (topic : string) : bucket :=
  match Topics c !! topic with
  | Some v =>
      {| Size := Size c;
         Topics := <[topic := delete (GetSubscriberID s) v]> (Topics c) |}
  | None => c
  end.

(** [len] of a map, an [int] that is never negative. *)
Definition bucket_countTopicSubscriber (c : bucket) (topic : string) : nat :=
  match Topics c !! topic with
  | None => O
  | Some v => size v
  end.

(** ** The emitter *)

Record EventEmitter := mkEventEmitter {
  conf : Config;
  seed : Z;
  buckets : list bucket
}.

(** [New]; [seed] stands for the result of [maphash.MakeSeed()], a nil
    [conf] is [None], and the loop that appends [BucketNum] buckets is
    [replicate].  The slice is taken to be allocated whatever its
    capacity. *)
Definition New (fuel : nat) (conf : option Config) (seed : Z)
    : option EventEmitter :=
  conf' ← Config_init fuel (default {| BucketNum := 0; BucketSize := 0 |} conf);
  Some {| conf := conf';
          seed := seed;
          buckets := replicate (Z.to_nat (BucketNum conf'))
                       {| Size := BucketSize conf'; Topics := ∅ |} |}.

Definition getBucket_index (c : EventEmitter) (topic : string) : nat :=
  Z.to_nat (Z.land (to_uint64 (maphash_String (seed c) topic))
                   (to_uint64 (BucketNum (conf c) - 1))).

Definition getBucket (c : EventEmitter) (topic : string) : option bucket :=
  buckets c !! getBucket_index c topic.

(** [c.getBucket(topic).m(...)] for a method [m] that updates the bucket in
    place. *)
Definition update_bucket (c : EventEmitter) (topic : string)
    (m : bucket → bucket) : option EventEmitter :=
  b ← getBucket c topic;
  Some {| conf := conf c; seed := seed c;
          buckets := <[getBucket_index c topic := m b]> (buckets c) |}.

Definition Publish (c : EventEmitter) (topic : string) (msg : any) (r : Run)
    : option Run :=
  b ← getBucket c topic; Some (bucket_publish b topic msg r).

Definition PublishE (c : EventEmitter) (topic : string) (msg : any)
    (checkSent : T → World → World * bool) (f : T → error → World → World)
    (r : Run) : option Run :=
  b ← getBucket c topic; Some (bucket_publish_e b topic msg checkSent f r).

Definition Subscribe (c : EventEmitter) (h : Heap) (s : T) (topic : string)
    (f : eventCallback) : option (EventEmitter * Heap) :=
  h' ← Metadata_Store h (GetMetadata s) (subTopic +:+ topic) (VString topic);
  c' ← update_bucket c topic (λ b, bucket_subscribe b s topic f);
  Some (c', h').

Definition UnSubscribe (c : EventEmitter) (h : Heap) (s : T) (topic : string)
    : option (EventEmitter * Heap) :=
  h' ← Metadata_Delete h (GetMetadata s) (subTopic +:+ topic);
  c' ← update_bucket c topic (λ b, bucket_unSubscribe b s topic);
  Some (c', h').

(** The visitor both [UnSubscribeAll] and [GetTopicsBySubscriber] pass to
    [Range]: [value.(string)] panics on a value that is not a string. *)
Definition collect_topic (key : string) (value : any) (topics : list string)
    : option (list string * bool) :=
  if String.prefix subTopic key then
    match value with
    | VString topic => Some (topics ++ [topic], true)
    | _ => None
    end
  else Some (topics, true).

Fixpoint UnSubscribeAll_loop (c : EventEmitter) (h : Heap) (s : T)
    (topics : list string) : option (EventEmitter * Heap) :=
  match topics with
  | [] => Some (c, h)
  | topic :: rest =>
      h' ← Metadata_Delete h (GetMetadata s) (subTopic +:+ topic);
      c' ← update_bucket c topic (λ b, bucket_unSubscribe b s topic);
      UnSubscribeAll_loop c' h' s rest
  end.

Definition UnSubscribeAll (c : EventEmitter) (h : Heap) (s : T)
    : option (EventEmitter * Heap) :=
  topics ← Metadata_Range h (GetMetadata s) collect_topic [];
  UnSubscribeAll_loop c h s topics.

(** The receiver of [GetTopicsBySubscriber] is not used by its body. *)
Definition GetTopicsBySubscriber (h : Heap) (s : T) : option (list string) :=
  Metadata_Range h (GetMetadata s) collect_topic [].

Definition CountSubscriberByTopic (c : EventEmitter) (topic : string)
    : option nat :=
  b ← getBucket c topic; Some (bucket_countTopicSubscriber b topic).

(** [bucket.TopicStatus]: one entry per topic of the table, in the order of
    the [range]. *)
Definition bucket_TopicStatus (c : bucket) : list TopicStatus :=
  (λ kt, {| Topic := kt.1; Count := size kt.2 |}) <$> order _ (Topics c).

(** [EventEmitter.TopicStatus]: the loop appends the status of each bucket. *)
Definition EventEmitter_TopicStatus (c : EventEmitter) : list TopicStatus :=
  foldl (λ status b, status ++ bucket_TopicStatus b) [] (buckets c).

(** ** Notions the statements are written in *)

(** The registration map of a topic: the [subers] of the topic in the bucket
    the topic is routed to, empty when there is none. *)
Definition registration (c : EventEmitter) (topic : string)
    : gmap string topicElement :=
  default ∅ (b ← getBucket c topic; Topics b !! topic).

(** Every entry of a topic table sits under the id of its subscriber, as
    [subscribe] writes it. *)
Definition bucket_ok (b : bucket) : Prop :=
  ∀ topic (t : gmap string topicElement) sid v,
    Topics b !! topic = Some t → t !! sid = Some v →
    GetSubscriberID (suber v) = sid.

(** What [New] establishes and every operation keeps: a power of two of
    buckets, as many as configured. *)
Definition wf_emitter (c : EventEmitter) : Prop :=
  (∃ k, 0 ≤ k ≤ 62 ∧ BucketNum (conf c) = 2 ^ k ∧
        length (buckets c) = Z.to_nat (2 ^ k)) ∧
  Forall bucket_ok (buckets c).

(** The reverse index of a store: the values of the entries under the
    reserved prefix, read off a list of entries. *)
Definition reverse_entry (kv : string * any) : option any :=
  if String.prefix subTopic kv.1 then Some kv.2 else None.

Definition topic_of (v : any) : option string :=
  match v with VString topic => Some topic | _ => None end.

Definition reverse_values (c : gmap string any) : list any :=
  omap reverse_entry (map_to_list c).

Definition reverse_topics (entries : list (string * any)) : list string :=
  omap (λ kv, reverse_entry kv ≫= topic_of) entries.

(** A store after the deletions of the loop of [UnSubscribeAll]. *)
Definition delete_topics (m : gmap string any) (topics : list string)
    : gmap string any :=
  foldl (λ m topic, delete (subTopic +:+ topic) m) m topics.

(** The reverse-index entries of a store are the ones [Subscribe] writes. *)
Definition store_ok (c : gmap string any) : Prop :=
  ∀ k v, c !! k = Some v → String.prefix subTopic k = true →
    ∃ topic, k = subTopic +:+ topic ∧ v = VString topic.

Definition has_reverse_entry (h : Heap) (s : T) (topic : string) : Prop :=
  ∃ c : gmap string any,
    h !! GetMetadata s = Some c ∧ is_Some (c !! (subTopic +:+ topic)).

Definition registered (c : EventEmitter) (s : T) (topic : string) : Prop :=
  is_Some (registration c topic !! GetSubscriberID s).


(** Every subscriber of [subs] has a store, with a well-formed reverse
    index. *)
Definition stores_ok (subs : list T) (h : Heap) : Prop :=
  ∀ s, s ∈ subs →
    ∃ c : gmap string any, h !! GetMetadata s = Some c ∧ store_ok c.

(** Subscribers as the data model has them: the id identifies the subscriber,
    and with it the store. *)
Definition distinct_subscribers (subs : list T) : Prop :=
  ∀ s s', s ∈ subs → s' ∈ subs →
    GetSubscriberID s = GetSubscriberID s' ↔ GetMetadata s = GetMetadata s'.

(** The operations that write. *)
Inductive Op :=
  | OpSubscribe (s : T) (topic : string) (f : eventCallback)
  | OpUnSubscribe (s : T) (topic : string)
  | OpUnSubscribeAll (s : T).

Definition op_subscriber (o : Op) : T :=
  match o with
  | OpSubscribe s _ _ => s
  | OpUnSubscribe s _ => s
  | OpUnSubscribeAll s => s
  end.

Definition step (st : EventEmitter * Heap) (o : Op)
    : option (EventEmitter * Heap) :=
  match o with
  | OpSubscribe s topic f => Subscribe st.1 st.2 s topic f
  | OpUnSubscribe s topic => UnSubscribe st.1 st.2 s topic
  | OpUnSubscribeAll s => UnSubscribeAll st.1 st.2 s
  end.

Fixpoint run (st : EventEmitter * Heap) (ops : list Op)
    : option (EventEmitter * Heap) :=
  match ops with
  | [] => Some st
  | o :: rest => st' ← step st o; run st' rest
  end.

(** What a publish does, as a relation: the entries of the registration are
    served one after the other, each callback started in the world the
    previous one left. *)
Inductive delivers (msg : any)
    : World → list (string * topicElement) → list Event → World → Prop :=
  | delivers_nil w : delivers msg w [] [] w
  | delivers_cons w kv rest w1 err evs w2 :
      cb kv.2 (suber kv.2) msg w = (w1, err) →
      delivers msg w1 rest evs w2 →
      delivers msg w (kv :: rest)
        (EvCall (suber kv.2) (cb kv.2) msg err :: evs) w2.

Inductive delivers_e (msg : any) (checkSent : T → World → World * bool)
    (f : T → error → World → World)
    : World → list (string * topicElement) → list Event → World → Prop :=
  | delivers_e_nil w : delivers_e msg checkSent f w [] [] w
  | delivers_e_skip w kv rest w1 evs w2 :
      checkSent (suber kv.2) w = (w1, true) →
      delivers_e msg checkSent f w1 rest evs w2 →
      delivers_e msg checkSent f w (kv :: rest)
        (EvCheck (suber kv.2) true :: evs) w2
  | delivers_e_send w kv rest w1 w2 err evs w3 :
      checkSent (suber kv.2) w = (w1, false) →
      cb kv.2 (suber kv.2) msg w1 = (w2, err) →
      delivers_e msg checkSent f (f (suber kv.2) err w2) rest evs w3 →
      delivers_e msg checkSent f w (kv :: rest)
        (EvCheck (suber kv.2) false
           :: EvCall (suber kv.2) (cb kv.2) msg err
           :: EvResult (suber kv.2) err :: evs) w3.

(** The part of a log that concerns the subscriber id [sid]. *)
Definition event_subscriber (ev : Event) : T :=
  match ev with
  | EvCheck s _ => s
  | EvCall s _ _ _ => s
  | EvResult s _ => s
  end.

Definition events_of (sid : string) (evs : list Event) : list Event :=
  List.filter (λ ev, bool_decide (GetSubscriberID (event_subscriber ev) = sid)) evs.

Definition key_ok (kv : string * topicElement) : Prop :=
  GetSubscriberID (suber kv.2) = kv.1.

(** A topic has a table entry in the bucket it is routed to, and in no
    other. *)
Definition routed (c : EventEmitter) : Prop :=
  ∀ i b topic, buckets c !! i = Some b → is_Some (Topics b !! topic) →
    getBucket_index c topic = i.





(** An emitter of one bucket, as [New(&Config{BucketNum: 1})] makes it. *)
Definition single_bucket : EventEmitter :=
  {| conf := {| BucketNum := 1; BucketSize := 0 |};
     seed := 0;
     buckets := [ {| Size := 0; Topics := ∅ |} ] |}.

End emitter.

(** ** Sample data

    A runtime that hashes every topic to 0 and ranges in the order of
    [map_to_list]; three subscribers, the third with the id of the first;
    callbacks that count their calls in a world of one number. *)

#[export] Instance sample_runtime : GoRuntime := {|
  maphash_String := λ _ _, 0;
  order := λ A, map_to_list;
  order_perm := λ A m, reflexivity (map_to_list m)
|}.

Definition alice : StringSubscriber := {| id := "alice"; md := 1%positive |}.
Definition bob : StringSubscriber := {| id := "bob"; md := 2%positive |}.
Definition alice2 : StringSubscriber := {| id := "alice"; md := 3%positive |}.

Definition sample_heap : Heap :=
  <[1%positive := newSmap]> (<[2%positive := newSmap]> (<[3%positive := newSmap]> ∅)).

Definition count_cb : StringSubscriber → any → nat → nat * error :=
  λ _ _ w, (S w, None).

Definition failing_cb : StringSubscriber → any → nat → nat * error :=
  λ _ _ w, (w, Some "failed"%string).

(** [alice] and [bob] on ["test"], [alice] on ["oh"], in one bucket. *)
Definition sample_emitter : @EventEmitter StringSubscriber nat :=
  {| conf := {| BucketNum := 1; BucketSize := 0 |};
     seed := 0;
     buckets :=
       [ {| Size := 0;
            Topics :=
              <["test"%string :=
                  <["alice"%string := {| suber := alice; cb := count_cb |}]>
                    (<["bob"%string := {| suber := bob; cb := failing_cb |}]> ∅)]>
                (<["oh"%string :=
                     <["alice"%string := {| suber := alice; cb := count_cb |}]> ∅]> ∅) |} ] |}.

Definition alice_store : gmap string any :=
  <["sub-topic-test"%string := VString "test"]>
    (<["sub-topic-oh"%string := VString "oh"]> ∅).

Definition sample_stores : Heap :=
  <[1%positive := alice_store]>
    (<[2%positive := <["sub-topic-test"%string := VString "test"]> ∅]> ∅).

(** A [checkSent] that skips [bob], and an [f] that counts the reports. *)
Definition skip_bob : StringSubscriber → nat → nat * bool :=
  λ s w, (w, String.eqb (id s) "bob").

Definition count_report : StringSubscriber → error → nat → nat :=
  λ _ _ w, (w + 100)%nat.

(** ** Arithmetic of the rounding loop *)

Lemma wrap_int64_small z : - 2 ^ 63 ≤ z < 2 ^ 63 → wrap_int64 z = z.
Proof.
  intros Hz. unfold wrap_int64.
  rewrite Z.mod_small by lia. lia.
Qed.

Lemma toBinaryNumber_loop_spec (d : nat) (k : Z) (n : Z) :
  0 ≤ k → k + Z.of_nat d ≤ 62 →
  2 ^ k < 2 * n → n ≤ 2 ^ (k + Z.of_nat d) →
  ∃ j, k ≤ j ≤ k + Z.of_nat d ∧
       toBinaryNumber_loop (S d) (2 ^ k) n = Some (2 ^ j) ∧
       n ≤ 2 ^ j ∧ (k < j → 2 ^ (j - 1) < n).
Proof.
  revert k. induction d as [|d IH]; intros k Hk Hkd Hlo Hhi.
  - exists k. replace (k + Z.of_nat 0) with k in Hhi by lia.
    cbn [toBinaryNumber_loop].
    destruct (Z.ltb_spec (2 ^ k) n); [lia|].
    repeat split; try lia.
  - cbn [toBinaryNumber_loop].
    destruct (Z.ltb_spec (2 ^ k) n) as [Hlt|Hge].
    + assert (Hpow : 2 ^ (k + 1) = 2 ^ k * 2).
      { rewrite Z.pow_add_r by lia. lia. }
      assert (Hbound : 2 ^ (k + 1) ≤ 2 ^ 62).
      { apply Z.pow_le_mono_r; lia. }
      rewrite wrap_int64_small by lia.
      rewrite <- Hpow.
      destruct (IH (k + 1)) as (j & Hj & Hrun & Hle & Hmin); try lia.
      { replace (k + 1 + Z.of_nat d) with (k + Z.of_nat (S d)) by lia. done. }
      exists j. split; [lia|]. split; [exact Hrun|]. split; [done|].
      intros _. destruct (decide (j = k + 1)) as [->|Hne].
      * replace (k + 1 - 1) with k by lia. done.
      * apply Hmin. lia.
    + exists k. repeat split; try lia.
Qed.

Lemma toBinaryNumber_loop_fuel_mono fuel fuel' x n r :
  toBinaryNumber_loop fuel x n = Some r → (fuel ≤ fuel')%nat →
  toBinaryNumber_loop fuel' x n = Some r.
Proof.
  revert fuel' x. induction fuel as [|fuel IH]; intros fuel' x Hrun Hle; [done|].
  destruct fuel' as [|fuel']; [lia|].
  cbn [toBinaryNumber_loop] in *.
  destruct (x <? n); [|done]. apply IH; [done|lia].
Qed.

Lemma toBinaryNumber_loop_zero fuel n :
  0 < n → toBinaryNumber_loop fuel 0 n = None.
Proof.
  intros Hn. induction fuel as [|fuel IH]; [done|].
  cbn [toBinaryNumber_loop].
  destruct (Z.ltb_spec 0 n); [|lia]. exact IH.
Qed.

Lemma toBinaryNumber_loop_diverges (d : nat) (k : Z) fuel n :
  0 ≤ k → k + Z.of_nat d = 62 → 2 ^ 62 < n →
  toBinaryNumber_loop fuel (2 ^ k) n = None.
Proof.
  revert k fuel. induction d as [|d IH]; intros k fuel Hk Hkd Hlo.
  - replace k with 62 by lia.
    destruct fuel as [|fuel]; [done|]. cbn [toBinaryNumber_loop].
    destruct (Z.ltb_spec (2 ^ 62) n); [|lia].
    replace (wrap_int64 (2 ^ 62 * 2)) with (- 2 ^ 63) by (by vm_compute).
    destruct fuel as [|fuel]; [done|]. cbn [toBinaryNumber_loop].
    destruct (Z.ltb_spec (- 2 ^ 63) n); [|lia].
    replace (wrap_int64 (- 2 ^ 63 * 2)) with 0 by (by vm_compute).
    apply toBinaryNumber_loop_zero. lia.
  - destruct fuel as [|fuel]; [done|]. cbn [toBinaryNumber_loop].
    assert (Hpow : 2 ^ (k + 1) = 2 ^ k * 2).
    { rewrite Z.pow_add_r by lia. lia. }
    assert (Hbound : 2 ^ (k + 1) ≤ 2 ^ 62).
    { apply Z.pow_le_mono_r; lia. }
    destruct (Z.ltb_spec (2 ^ k) n); [|lia].
    rewrite wrap_int64_small by lia.
    rewrite <- Hpow. apply IH; lia.
Qed.

Section emitter_facts.

Context {T : Type} `{!Subscriber T} {World : Type} `{!GoRuntime}.

Implicit Types (c : @EventEmitter T World) (b : @bucket T World) (s : T).
Implicit Types (h : Heap) (r : @Run T World).
Implicit Types (elems : list (string * @topicElement T World)).
Implicit Types (evs : list (@Event T World)) (w : World).

Local Abbreviation topicElement := (@topicElement T World).
Local Abbreviation Run := (@Run T World).
Local Abbreviation New := (@New T World).

(** ** The reserved prefix *)

Lemma prefix_subTopic topic : String.prefix subTopic (subTopic +:+ topic) = true.
Proof. by destruct topic. Qed.

Lemma subTopic_inj topic topic' :
  subTopic +:+ topic = subTopic +:+ topic' → topic = topic'.
Proof. unfold subTopic. cbn. intros Heq. by simplify_eq. Qed.

(** ** Routing *)

Lemma getBucket_index_lt c topic :
  wf_emitter c → (getBucket_index c topic < length (buckets c))%nat.
Proof.
  intros [(k & Hk & Hnum & Hlen) _]. unfold getBucket_index, to_uint64.
  rewrite Hlen, Hnum.
  assert (Hpow : 0 < 2 ^ k ≤ 2 ^ 62).
  { split; [apply Z.pow_pos_nonneg; lia | apply Z.pow_le_mono_r; lia]. }
  rewrite (Z.mod_small (2 ^ k - 1)) by lia.
  replace (2 ^ k - 1) with (Z.ones k) by (rewrite Z.ones_equiv; lia).
  rewrite Z.land_ones by lia.
  pose proof (Z.mod_pos_bound (maphash_String (seed c) topic `mod` 2 ^ 64) (2 ^ k)).
  lia.
Qed.

Lemma getBucket_is_Some c topic : wf_emitter c → is_Some (getBucket c topic).
Proof.
  intros Hwf. apply lookup_lt_is_Some. by apply getBucket_index_lt.
Qed.

Lemma registration_bucket c topic b :
  getBucket c topic = Some b → registration c topic = default ∅ (Topics b !! topic).
Proof. intros Hb. unfold registration. by rewrite Hb. Qed.

Lemma update_bucket_wf c topic m c' :
  wf_emitter c → (∀ b, bucket_ok b → bucket_ok (m b)) →
  update_bucket c topic m = Some c' → wf_emitter c'.
Proof.
  intros [Hnum Hok] Hm Hupd. unfold update_bucket in Hupd.
  destruct (getBucket c topic) as [b|] eqn:Hb; simplify_eq/=.
  split; cbn.
  - destruct Hnum as (k & Hk & Hnum & Hlen). exists k.
    by rewrite length_insert.
  - apply Forall_insert; [done|]. apply Hm.
    unfold getBucket in Hb. by eapply Forall_lookup_1 in Hb.
Qed.

(** A method that touches one topic of its bucket changes the registration
    of that topic only. *)
Lemma update_bucket_registration c topic m b c' topic0 :
  getBucket c topic = Some b →
  update_bucket c topic m = Some c' →
  (∀ t, t ≠ topic → Topics (m b) !! t = Topics b !! t) →
  registration c' topic0 =
    if decide (topic0 = topic) then default ∅ (Topics (m b) !! topic)
    else registration c topic0.
Proof.
  intros Hb Hupd Hm. unfold update_bucket in Hupd. rewrite Hb in Hupd.
  simplify_eq/=. unfold registration, getBucket, getBucket_index. cbn.
  fold (getBucket_index c topic0). fold (getBucket_index c topic).
  unfold getBucket in Hb.
  pose proof (lookup_lt_Some _ _ _ Hb) as Hlt.
  destruct (decide (topic0 = topic)) as [->|Hne].
  - by rewrite list_lookup_insert_eq.
  - destruct (decide (getBucket_index c topic = getBucket_index c topic0)) as [Hi|Hi].
    + rewrite <- Hi, list_lookup_insert_eq, Hb by done. cbn. by rewrite Hm.
    + by rewrite list_lookup_insert_ne.
Qed.

(** ** The methods of a bucket *)

Lemma bucket_subscribe_Topics b s topic f t :
  Topics (bucket_subscribe b s topic f) !! t =
    if decide (t = topic)
    then Some (<[GetSubscriberID s := {| suber := s; cb := f |}]>
                 (default ∅ (Topics b !! topic)))
    else Topics b !! t.
Proof.
  unfold bucket_subscribe.
  destruct (Topics b !! topic) eqn:Ht; cbn;
    (destruct (decide (t = topic)) as [->|Hne];
       [by rewrite lookup_insert_eq | by rewrite lookup_insert_ne]).
Qed.

Lemma bucket_unSubscribe_Topics b s topic t :
  Topics (bucket_unSubscribe b s topic) !! t =
    if decide (t = topic)
    then delete (GetSubscriberID s) <$> Topics b !! topic
    else Topics b !! t.
Proof.
  unfold bucket_unSubscribe.
  destruct (Topics b !! topic) eqn:Ht; cbn.
  - destruct (decide (t = topic)) as [->|Hne];
      [by rewrite lookup_insert_eq | by rewrite lookup_insert_ne].
  - destruct (decide (t = topic)) as [->|Hne]; by rewrite ?Ht.
Qed.

Lemma bucket_subscribe_ok b s topic f :
  bucket_ok b → bucket_ok (bucket_subscribe b s topic f).
Proof.
  intros Hok t reg sid v Ht Hv.
  rewrite bucket_subscribe_Topics in Ht.
  destruct (decide (t = topic)) as [->|Hne]; [|by eapply Hok].
  simplify_eq. destruct (decide (sid = GetSubscriberID s)) as [->|Hsid].
  - rewrite lookup_insert_eq in Hv. by simplify_eq.
  - rewrite lookup_insert_ne in Hv by done.
    destruct (Topics b !! topic) as [reg|] eqn:Hreg; cbn in Hv; [by eapply Hok|].
    by rewrite lookup_empty in Hv.
Qed.

Lemma bucket_unSubscribe_ok b s topic :
  bucket_ok b → bucket_ok (bucket_unSubscribe b s topic).
Proof.
  intros Hok t reg sid v Ht Hv.
  rewrite bucket_unSubscribe_Topics in Ht.
  destruct (decide (t = topic)) as [->|Hne]; [|by eapply Hok].
  destruct (Topics b !! topic) as [reg0|] eqn:Hreg; simplify_eq/=.
  apply lookup_delete_Some in Hv as [_ Hv]. by eapply Hok.
Qed.

Lemma bucket_unSubscribe_id b s topic :
  default ∅ (Topics b !! topic) !! GetSubscriberID s = None →
  bucket_unSubscribe b s topic = b.
Proof.
  intros Hnone. unfold bucket_unSubscribe.
  destruct (Topics b !! topic) as [v|] eqn:Ht; [|done]. cbn in Hnone.
  rewrite delete_id, insert_id by done. by destruct b.
Qed.

(** ** Subscribe and UnSubscribe, step by step *)

Lemma Subscribe_spec c h s topic f (m : gmap string any) :
  wf_emitter c → h !! GetMetadata s = Some m →
  ∃ c', Subscribe c h s topic f =
          Some (c', <[GetMetadata s := <[subTopic +:+ topic := VString topic]> m]> h) ∧
        wf_emitter c' ∧
        ∀ t, registration c' t =
               if decide (t = topic)
               then <[GetSubscriberID s := {| suber := s; cb := f |}]>
                      (registration c topic)
               else registration c t.
Proof.
  intros Hwf Hm. unfold Subscribe, Metadata_Store. rewrite Hm. cbn.
  destruct (getBucket_is_Some c topic Hwf) as [b Hb].
  destruct (update_bucket c topic (λ b, bucket_subscribe b s topic f))
    as [c'|] eqn:Hupd; last first.
  { unfold update_bucket in Hupd. by rewrite Hb in Hupd. }
  exists c'. cbn. split; [done|]. split.
  - eapply update_bucket_wf; [done| |done].
    intros b0. apply bucket_subscribe_ok.
  - intros t.
    rewrite (update_bucket_registration _ _ _ _ _ t Hb Hupd).
    + case_decide; [|done].
      rewrite bucket_subscribe_Topics, decide_True by done. cbn.
      by rewrite (registration_bucket _ _ _ Hb).
    + intros t' Hne. by rewrite bucket_subscribe_Topics, decide_False.
Qed.

Lemma UnSubscribe_spec c h s topic (m : gmap string any) :
  wf_emitter c → h !! GetMetadata s = Some m →
  ∃ c', UnSubscribe c h s topic =
          Some (c', <[GetMetadata s := delete (subTopic +:+ topic) m]> h) ∧
        wf_emitter c' ∧
        ∀ t, registration c' t =
               if decide (t = topic)
               then delete (GetSubscriberID s) (registration c topic)
               else registration c t.
Proof.
  intros Hwf Hm. unfold UnSubscribe, Metadata_Delete. rewrite Hm. cbn.
  destruct (getBucket_is_Some c topic Hwf) as [b Hb].
  destruct (update_bucket c topic (λ b, bucket_unSubscribe b s topic))
    as [c'|] eqn:Hupd; last first.
  { unfold update_bucket in Hupd. by rewrite Hb in Hupd. }
  exists c'. cbn. split; [done|]. split.
  - eapply update_bucket_wf; [done| |done].
    intros b0. apply bucket_unSubscribe_ok.
  - intros t.
    rewrite (update_bucket_registration _ _ _ _ _ t Hb Hupd).
    + case_decide; [|done].
      rewrite bucket_unSubscribe_Topics, decide_True by done.
      rewrite (registration_bucket _ _ _ Hb).
      destruct (Topics b !! topic); cbn; [done|]. by rewrite delete_empty.
    + intros t' Hne. by rewrite bucket_unSubscribe_Topics, decide_False.
Qed.

(** Unsubscribing what is not there changes neither the store nor the
    buckets. *)
Lemma UnSubscribe_absent c h s topic (m : gmap string any) :
  wf_emitter c → h !! GetMetadata s = Some m →
  m !! (subTopic +:+ topic) = None →
  registration c topic !! GetSubscriberID s = None →
  UnSubscribe c h s topic = Some (c, h).
Proof.
  intros Hwf Hm Hkey Hreg. unfold UnSubscribe, Metadata_Delete. rewrite Hm. cbn.
  destruct (getBucket_is_Some c topic Hwf) as [b Hb].
  unfold update_bucket. rewrite Hb. cbn.
  rewrite (registration_bucket _ _ _ Hb) in Hreg.
  rewrite bucket_unSubscribe_id by done.
  unfold smap_Delete. rewrite delete_id, insert_id by done.
  unfold getBucket in Hb. rewrite list_insert_id by done.
  by destruct c.
Qed.

Lemma CountSubscriberByTopic_size c topic :
  wf_emitter c →
  CountSubscriberByTopic c topic = Some (size (registration c topic)).
Proof.
  intros Hwf. unfold CountSubscriberByTopic.
  destruct (getBucket_is_Some c topic Hwf) as [b Hb]. rewrite Hb. cbn.
  rewrite (registration_bucket _ _ _ Hb). unfold bucket_countTopicSubscriber.
  destruct (Topics b !! topic); cbn; [done|]. by rewrite map_size_empty.
Qed.

(** ** Publishing *)

Lemma registration_ok c topic sid v :
  wf_emitter c → registration c topic !! sid = Some v →
  GetSubscriberID (suber v) = sid.
Proof.
  intros [_ Hok] Hv. unfold registration in Hv.
  destruct (getBucket c topic) as [b|] eqn:Hb; cbn in Hv;
    [|by rewrite lookup_empty in Hv].
  destruct (Topics b !! topic) as [t|] eqn:Ht; cbn in Hv;
    [|by rewrite lookup_empty in Hv].
  unfold getBucket in Hb. eapply Forall_lookup_1 in Hb; [|done].
  by eapply Hb.
Qed.

Lemma registration_elems c topic (elems : list (string * topicElement)) :
  wf_emitter c → elems ≡ₚ map_to_list (registration c topic) →
  Forall key_ok elems ∧ NoDup elems.*1.
Proof.
  intros Hwf Hperm. split.
  - apply Forall_forall. intros [sid v] Hin. rewrite Hperm in Hin.
    apply elem_of_map_to_list in Hin. by eapply registration_ok.
  - rewrite Hperm. apply NoDup_fst_map_to_list.
Qed.

Lemma order_registration c b topic (t : gmap string topicElement) :
  getBucket c topic = Some b → Topics b !! topic = Some t →
  order _ t ≡ₚ map_to_list (registration c topic).
Proof.
  intros Hb Ht. rewrite (registration_bucket _ _ _ Hb), Ht. apply order_perm.
Qed.

Lemma foldl_publish_body msg elems (r : Run) :
  ∃ evs w', delivers msg r.1 elems evs w' ∧
            foldl (publish_body msg) r elems = (w', r.2 ++ evs).
Proof.
  revert r. induction elems as [|kv elems IH]; intros [w tr].
  - exists [], w. split; [constructor|]. cbn. by rewrite app_nil_r.
  - cbn [foldl]. unfold publish_body at 2, call_cb. cbn.
    destruct (cb kv.2 (suber kv.2) msg w) as [w1 err] eqn:Hcb. cbn.
    destruct (IH (w1, tr ++ [EvCall (suber kv.2) (cb kv.2) msg err]))
      as (evs & w' & Hdel & Hrun).
    eexists _, w'. split; [by econstructor|].
    rewrite Hrun. cbn. by rewrite <- app_assoc.
Qed.

Lemma foldl_publish_e_body msg checkSent f elems (r : Run) :
  ∃ evs w', delivers_e msg checkSent f r.1 elems evs w' ∧
            foldl (publish_e_body msg checkSent f) r elems = (w', r.2 ++ evs).
Proof.
  revert r. induction elems as [|kv elems IH]; intros [w tr].
  - exists [], w. split; [constructor|]. cbn. by rewrite app_nil_r.
  - cbn [foldl]. unfold publish_e_body at 2, call_checkSent, call_cb, call_f. cbn.
    destruct (checkSent (suber kv.2) w) as [w1 skip] eqn:Hcheck.
    destruct skip; cbn.
    + destruct (IH (w1, tr ++ [EvCheck (suber kv.2) true]))
        as (evs & w' & Hdel & Hrun).
      eexists _, w'. split; [by eapply delivers_e_skip|].
      rewrite Hrun. cbn. by rewrite <- app_assoc.
    + destruct (cb kv.2 (suber kv.2) msg w1) as [w2 err] eqn:Hcb. cbn.
      destruct (IH (f (suber kv.2) err w2,
                    ((tr ++ [EvCheck (suber kv.2) false])
                       ++ [EvCall (suber kv.2) (cb kv.2) msg err])
                      ++ [EvResult (suber kv.2) err]))
        as (evs & w' & Hdel & Hrun).
      eexists _, w'. split; [by eapply delivers_e_send|].
      rewrite Hrun. cbn. by rewrite <- !app_assoc.
Qed.

Lemma delivers_length msg w elems evs w' :
  delivers msg w elems evs w' → length evs = length elems.
Proof. induction 1; cbn; congruence. Qed.

Lemma delivers_events_absent msg w elems evs w' sid :
  delivers msg w elems evs w' → Forall key_ok elems → sid ∉ elems.*1 →
  events_of sid evs = [].
Proof.
  induction 1 as [|w kv rest w1 err evs w2 Hcb Hdel IH]; [done|].
  intros [Hkv Hrest]%Forall_cons [Hne Hnin]%not_elem_of_cons. cbn.
  rewrite Hkv, bool_decide_false by done. by apply IH.
Qed.

Lemma delivers_events_present msg w elems evs w' sid v :
  delivers msg w elems evs w' → Forall key_ok elems → NoDup elems.*1 →
  (sid, v) ∈ elems →
  ∃ err, events_of sid evs = [EvCall (suber v) (cb v) msg err].
Proof.
  induction 1 as [|w kv rest w1 err evs w2 Hcb Hdel IH]; [by intros _ _ ?%elem_of_nil|].
  intros [Hkv Hrest]%Forall_cons [Hnin Hnd]%NoDup_cons [Heq|Hin]%elem_of_cons.
  - subst kv. exists err. unfold key_ok in Hkv. cbn in *. rewrite Hkv, bool_decide_true by done.
    f_equal. by eapply delivers_events_absent.
  - destruct (IH Hrest Hnd Hin) as [err' Hev]. exists err'. cbn.
    rewrite Hkv, bool_decide_false; [done|].
    intros Heq. apply Hnin. rewrite Heq.
    by apply (list_elem_of_fmap_2 fst rest (sid, v)).
Qed.

Lemma delivers_e_events_absent msg checkSent f w elems evs w' sid :
  delivers_e msg checkSent f w elems evs w' → Forall key_ok elems →
  sid ∉ elems.*1 → events_of sid evs = [].
Proof.
  induction 1 as [|w kv rest w1 evs w2 Hcheck Hdel IH
                  |w kv rest w1 w2 err evs w3 Hcheck Hcb Hdel IH]; [done|..];
    intros [Hkv Hrest]%Forall_cons [Hne Hnin]%not_elem_of_cons; cbn;
    rewrite Hkv, bool_decide_false by done; by apply IH.
Qed.

Lemma delivers_e_events_present msg checkSent f w elems evs w' sid v :
  delivers_e msg checkSent f w elems evs w' → Forall key_ok elems →
  NoDup elems.*1 → (sid, v) ∈ elems →
  events_of sid evs = [EvCheck (suber v) true] ∨
  ∃ err, events_of sid evs =
           [EvCheck (suber v) false; EvCall (suber v) (cb v) msg err;
            EvResult (suber v) err].
Proof.
  induction 1 as [|w kv rest w1 evs w2 Hcheck Hdel IH
                  |w kv rest w1 w2 err evs w3 Hcheck Hcb Hdel IH];
    [by intros _ _ ?%elem_of_nil|..];
    intros [Hkv Hrest]%Forall_cons [Hnin Hnd]%NoDup_cons [Heq|Hin]%elem_of_cons; try subst kv.
  - left. unfold key_ok in Hkv. cbn in *. rewrite Hkv, bool_decide_true by done.
    f_equal. by eapply delivers_e_events_absent.
  - cbn. rewrite Hkv, bool_decide_false; [by apply IH|].
    intros Heq. apply Hnin. rewrite Heq.
    by apply (list_elem_of_fmap_2 fst rest (sid, v)).
  - right. exists err. unfold key_ok in Hkv. cbn in *. rewrite Hkv, bool_decide_true by done.
    do 3 f_equal. by eapply delivers_e_events_absent.
  - cbn. rewrite Hkv, bool_decide_false; [by apply IH|].
    intros Heq. apply Hnin. rewrite Heq.
    by apply (list_elem_of_fmap_2 fst rest (sid, v)).
Qed.

Lemma Publish_delivers c topic msg (r : Run) :
  wf_emitter c →
  ∃ elems evs w',
    elems ≡ₚ map_to_list (registration c topic) ∧
    delivers msg r.1 elems evs w' ∧
    Publish c topic msg r = Some (w', r.2 ++ evs).
Proof.
  intros Hwf. unfold Publish, bucket_publish.
  destruct (getBucket_is_Some c topic Hwf) as [b Hb]. rewrite Hb. cbn.
  destruct (Topics b !! topic) as [t|] eqn:Ht.
  - destruct (foldl_publish_body msg (order _ t) r) as (evs & w' & Hdel & Hrun).
    exists (order _ t), evs, w'. split; [by eapply order_registration|].
    split; [done|]. by rewrite Hrun.
  - exists [], [], r.1. split.
    { by rewrite (registration_bucket _ _ _ Hb), Ht. }
    split; [constructor|]. rewrite app_nil_r. by destruct r.
Qed.

Lemma PublishE_delivers c topic msg checkSent f (r : Run) :
  wf_emitter c →
  ∃ elems evs w',
    elems ≡ₚ map_to_list (registration c topic) ∧
    delivers_e msg checkSent f r.1 elems evs w' ∧
    PublishE c topic msg checkSent f r = Some (w', r.2 ++ evs).
Proof.
  intros Hwf. unfold PublishE, bucket_publish_e.
  destruct (getBucket_is_Some c topic Hwf) as [b Hb]. rewrite Hb. cbn.
  destruct (Topics b !! topic) as [t|] eqn:Ht.
  - destruct (foldl_publish_e_body msg checkSent f (order _ t) r)
      as (evs & w' & Hdel & Hrun).
    exists (order _ t), evs, w'. split; [by eapply order_registration|].
    split; [done|]. by rewrite Hrun.
  - exists [], [], r.1. split.
    { by rewrite (registration_bucket _ _ _ Hb), Ht. }
    split; [constructor|]. rewrite app_nil_r. by destruct r.
Qed.

Lemma Publish_calls_registered c topic msg (r : Run) sid v :
  wf_emitter c → registration c topic !! sid = Some v →
  ∃ evs w' err,
    Publish c topic msg r = Some (w', r.2 ++ evs) ∧
    events_of sid evs = [EvCall (suber v) (cb v) msg err].
Proof.
  intros Hwf Hv.
  destruct (Publish_delivers c topic msg r Hwf) as (elems & evs & w' & Hperm & Hdel & Hrun).
  destruct (registration_elems c topic elems Hwf Hperm) as [Hkeys Hnd].
  destruct (delivers_events_present msg r.1 elems evs w' sid v) as [err Hev];
    [done..| |by exists evs, w', err].
  rewrite Hperm. by apply elem_of_map_to_list.
Qed.

(** C1.  [Publish c topic msg] returns, and the calls it makes are the
    callbacks of the entries of the registration of [topic], taken in some
    order and run one after the other on [msg].  So there are as many calls
    as registered ids, a registered id gets exactly one call (of its own
    subscriber and callback), and an id that is not registered gets none. *)
Theorem Publish_invokes_registered c topic msg (r : Run) :
  wf_emitter c →
  ∃ elems evs w',
    elems ≡ₚ map_to_list (registration c topic) ∧
    delivers msg r.1 elems evs w' ∧
    Publish c topic msg r = Some (w', r.2 ++ evs) ∧
    length evs = size (registration c topic) ∧
    ∀ sid,
      match registration c topic !! sid with
      | Some v => ∃ err, events_of sid evs = [EvCall (suber v) (cb v) msg err]
      | None => events_of sid evs = []
      end.
Proof.
  intros Hwf.
  destruct (Publish_delivers c topic msg r Hwf) as (elems & evs & w' & Hperm & Hdel & Hrun).
  destruct (registration_elems c topic elems Hwf Hperm) as [Hkeys Hnd].
  exists elems, evs, w'. repeat split; [done..| |].
  - rewrite (delivers_length _ _ _ _ _ Hdel), Hperm. apply length_map_to_list.
  - intros sid. destruct (registration c topic !! sid) as [v|] eqn:Hv.
    + eapply delivers_events_present; [done..|].
      rewrite Hperm. by apply elem_of_map_to_list.
    + eapply delivers_events_absent; [done..|].
      rewrite Hperm. intros [[sid' v] [-> Hin]]%list_elem_of_fmap.
      apply elem_of_map_to_list in Hin. cbn in Hv. congruence.
Qed.

(** C4.  [PublishE] returns, and what it does is: for the entries of the
    registration of [topic], in some order, ask [checkSent] about the
    subscriber; on [false] call the callback and hand its result, nil or
    not, to [f]; then go on to the next entry whatever the result was.  So a
    registered id is either checked, found [true] and left alone, or checked,
    called and reported; an id that is not registered sees nothing. *)
Theorem PublishE_checks_calls_reports c topic msg checkSent f (r : Run) :
  wf_emitter c →
  ∃ elems evs w',
    elems ≡ₚ map_to_list (registration c topic) ∧
    delivers_e msg checkSent f r.1 elems evs w' ∧
    PublishE c topic msg checkSent f r = Some (w', r.2 ++ evs) ∧
    ∀ sid,
      match registration c topic !! sid with
      | Some v =>
          events_of sid evs = [EvCheck (suber v) true] ∨
          ∃ err, events_of sid evs =
                   [EvCheck (suber v) false; EvCall (suber v) (cb v) msg err;
                    EvResult (suber v) err]
      | None => events_of sid evs = []
      end.
Proof.
  intros Hwf.
  destruct (PublishE_delivers c topic msg checkSent f r Hwf)
    as (elems & evs & w' & Hperm & Hdel & Hrun).
  destruct (registration_elems c topic elems Hwf Hperm) as [Hkeys Hnd].
  exists elems, evs, w'. repeat split; [done..|].
  intros sid. destruct (registration c topic !! sid) as [v|] eqn:Hv.
  - eapply delivers_e_events_present; [done..|].
    rewrite Hperm. by apply elem_of_map_to_list.
  - eapply delivers_e_events_absent; [done..|].
    rewrite Hperm. intros [[sid' v] [-> Hin]]%list_elem_of_fmap.
    apply elem_of_map_to_list in Hin. cbn in Hv. congruence.
Qed.

(** C8, as the code has it.  Publishing to a topic nobody is registered to,
    be it that the topic was never subscribed to or that its registration
    has been emptied, makes no call, leaves the world as it was and returns
    normally, whatever the message.  The empty string is a topic name like
    any other, so this is what happens for it as long as nobody subscribed
    to it. *)
Theorem Publish_without_subscribers c topic msg (r : Run) :
  wf_emitter c → registration c topic = ∅ →
  Publish c topic msg r = Some r.
Proof.
  intros Hwf Hreg.
  destruct (Publish_delivers c topic msg r Hwf) as (elems & evs & w' & Hperm & Hdel & Hrun).
  rewrite Hreg, map_to_list_empty in Hperm. apply Permutation_nil_r in Hperm.
  subst elems. inversion Hdel; subst. rewrite Hrun, app_nil_r. by destruct r.
Qed.

(** ** Ranging over a store *)

Lemma range_collect_Some entries acc :
  (∀ k v, (k, v) ∈ entries → String.prefix subTopic k = true →
          is_Some (topic_of v)) →
  range_entries collect_topic entries acc = Some (acc ++ reverse_topics entries).
Proof.
  revert acc. induction entries as [|[k v] entries IH]; intros acc Hstr.
  - cbn. by rewrite app_nil_r.
  - cbn. unfold collect_topic, reverse_entry. cbn.
    destruct (String.prefix subTopic k) eqn:Hpre; cbn.
    + destruct (Hstr k v) as [topic Htopic]; [left|done|].
      destruct v; simplify_eq/=.
      rewrite IH; [by rewrite <- app_assoc|].
      intros k' v' Hin. apply Hstr. by right.
    + apply IH. intros k' v' Hin. apply Hstr. by right.
Qed.

Lemma range_collect_None entries acc k v :
  (k, v) ∈ entries → String.prefix subTopic k = true → topic_of v = None →
  range_entries collect_topic entries acc = None.
Proof.
  revert acc. induction entries as [|[k0 v0] entries IH]; intros acc Hin Hpre Hv.
  - by apply elem_of_nil in Hin.
  - cbn. unfold collect_topic at 1.
    apply elem_of_cons in Hin as [Heq|Hin].
    + simplify_eq. rewrite Hpre. by destruct v0.
    + destruct (String.prefix subTopic k0); [|by apply IH].
      destruct v0; [by apply IH|done..].
Qed.

Lemma reverse_topics_values entries :
  (∀ k v, (k, v) ∈ entries → String.prefix subTopic k = true →
          is_Some (topic_of v)) →
  VString <$> reverse_topics entries = omap reverse_entry entries.
Proof.
  unfold reverse_topics, reverse_entry.
  induction entries as [|[k v] entries IH]; intros Hstr; [done|].
  cbn. destruct (String.prefix subTopic k) eqn:Hpre; cbn.
  - destruct (Hstr k v) as [topic Htopic]; [left|done|].
    destruct v; simplify_eq/=. f_equal. apply IH.
    intros k' v' Hin. apply Hstr. by right.
  - apply IH. intros k' v' Hin. apply Hstr. by right.
Qed.

Lemma elem_of_order (m : gmap string any) k v :
  (k, v) ∈ order any m ↔ m !! k = Some v.
Proof. rewrite order_perm. apply elem_of_map_to_list. Qed.

Lemma elem_of_reverse_topics (m : gmap string any) topic :
  store_ok m →
  topic ∈ reverse_topics (order any m) ↔ is_Some (m !! (subTopic +:+ topic)).
Proof.
  intros Hok. unfold reverse_topics. rewrite list_elem_of_omap. split.
  - intros ([k v] & Hin & Hsome). apply elem_of_order in Hin.
    unfold reverse_entry in Hsome. cbn in Hsome.
    destruct (String.prefix subTopic k) eqn:Hpre; [|done]. cbn in Hsome.
    destruct (Hok k v Hin Hpre) as (topic' & -> & ->). cbn in Hsome.
    by simplify_eq.
  - intros [v Hv].
    destruct (Hok _ _ Hv (prefix_subTopic topic)) as (topic' & Hkey & ->).
    apply subTopic_inj in Hkey as <-.
    exists (subTopic +:+ topic, VString topic). split; [by apply elem_of_order|].
    unfold reverse_entry. cbn [fst snd]. by rewrite prefix_subTopic.
Qed.

Lemma store_ok_strings (m : gmap string any) k v :
  store_ok m → (k, v) ∈ order any m → String.prefix subTopic k = true →
  is_Some (topic_of v).
Proof.
  intros Hok Hin Hpre. apply elem_of_order in Hin.
  destruct (Hok k v Hin Hpre) as (topic & _ & ->). by eexists.
Qed.

Lemma GetTopicsBySubscriber_store_ok h s (m : gmap string any) :
  h !! GetMetadata s = Some m → store_ok m →
  ∃ topics, GetTopicsBySubscriber h s = Some topics ∧
            ∀ topic, topic ∈ topics ↔ is_Some (m !! (subTopic +:+ topic)).
Proof.
  intros Hm Hok. exists (reverse_topics (order any m)). split.
  - unfold GetTopicsBySubscriber, Metadata_Range, smap_Range. rewrite Hm. cbn.
    rewrite range_collect_Some; [done|].
    intros k v. by apply store_ok_strings.
  - intros topic. by apply elem_of_reverse_topics.
Qed.

Lemma store_ok_delete (m : gmap string any) key :
  store_ok m → store_ok (delete key m).
Proof.
  intros Hok k v [_ Hv]%lookup_delete_Some. by apply Hok.
Qed.

Lemma store_ok_insert (m : gmap string any) topic :
  store_ok m → store_ok (<[subTopic +:+ topic := VString topic]> m).
Proof.
  intros Hok k v Hv Hpre.
  apply lookup_insert_Some in Hv as [[<- <-]|[_ Hv]]; [by eexists|by apply Hok].
Qed.

(** ** The loop of UnSubscribeAll *)

Lemma UnSubscribeAll_loop_cons c h s topic rest :
  UnSubscribeAll_loop c h s (topic :: rest) =
    st ← UnSubscribe c h s topic; UnSubscribeAll_loop st.1 st.2 s rest.
Proof.
  cbn [UnSubscribeAll_loop]. unfold UnSubscribe.
  destruct (Metadata_Delete h (GetMetadata s) (subTopic +:+ topic)); [|done]. cbn.
  by destruct (update_bucket c topic (λ b, bucket_unSubscribe b s topic)).
Qed.

Lemma delete_topics_lookup_None m topics k :
  m !! k = None → delete_topics m topics !! k = None.
Proof.
  revert m. induction topics as [|topic topics IH]; intros m Hk; [done|].
  cbn. apply IH. apply lookup_delete_None. by right.
Qed.

Lemma delete_topics_lookup_elem m topics topic :
  topic ∈ topics → delete_topics m topics !! (subTopic +:+ topic) = None.
Proof.
  revert m. induction topics as [|topic0 topics IH]; intros m Hin.
  - by apply elem_of_nil in Hin.
  - cbn. apply elem_of_cons in Hin as [->|Hin]; [|by apply IH].
    apply delete_topics_lookup_None, lookup_delete_eq.
Qed.

Lemma UnSubscribeAll_loop_spec c h s topics (m : gmap string any) :
  wf_emitter c → h !! GetMetadata s = Some m →
  ∃ c', UnSubscribeAll_loop c h s topics =
          Some (c', <[GetMetadata s := delete_topics m topics]> h) ∧
        wf_emitter c' ∧
        ∀ t, registration c' t =
               if decide (t ∈ topics)
               then delete (GetSubscriberID s) (registration c t)
               else registration c t.
Proof.
  revert c h m. induction topics as [|topic topics IH]; intros c h m Hwf Hm.
  - exists c. cbn. rewrite insert_id by done. split; [done|]. split; [done|].
    intros t. rewrite decide_False; [done|]. apply not_elem_of_nil.
  - rewrite UnSubscribeAll_loop_cons.
    destruct (UnSubscribe_spec c h s topic m Hwf Hm) as (c1 & -> & Hwf1 & Hreg1).
    cbn [mbind option_bind fst snd].
    destruct (IH c1 (<[GetMetadata s := delete (subTopic +:+ topic) m]> h)
                (delete (subTopic +:+ topic) m) Hwf1)
      as (c' & Hloop & Hwf' & Hreg'); [apply lookup_insert_eq|].
    exists c'. rewrite Hloop, insert_insert_eq. split; [done|]. split; [done|].
    intros t. rewrite Hreg', !Hreg1.
    destruct (decide (t = topic)) as [->|Hne].
    + rewrite (decide_True (P := topic ∈ topic :: topics)) by left.
      case_decide; [by rewrite delete_delete_eq|done].
    + destruct (decide (t ∈ topics)) as [Hin|Hnin].
      * by rewrite (decide_True (P := t ∈ topic :: topics)) by (by right).
      * rewrite (decide_False (P := t ∈ topic :: topics)); [done|].
        by intros [?|?]%elem_of_cons.
Qed.

Lemma UnSubscribeAll_store_ok c h s (m : gmap string any) :
  wf_emitter c → h !! GetMetadata s = Some m → store_ok m →
  ∃ c' topics,
    UnSubscribeAll c h s =
      Some (c', <[GetMetadata s := delete_topics m topics]> h) ∧
    wf_emitter c' ∧
    (∀ k, String.prefix subTopic k = true → delete_topics m topics !! k = None) ∧
    ∀ t, registration c' t =
           if decide (t ∈ topics)
           then delete (GetSubscriberID s) (registration c t)
           else registration c t.
Proof.
  intros Hwf Hm Hok.
  destruct (UnSubscribeAll_loop_spec c h s (reverse_topics (order any m)) m Hwf Hm)
    as (c' & Hloop & Hwf' & Hreg).
  exists c', (reverse_topics (order any m)).
  split; [|split; [done|split; [|done]]].
  - unfold UnSubscribeAll, Metadata_Range, smap_Range. rewrite Hm. cbn.
    rewrite range_collect_Some; [done|].
    intros k v. by apply store_ok_strings.
  - intros k Hpre. destruct (m !! k) as [v|] eqn:Hk;
      [|by apply delete_topics_lookup_None].
    destruct (Hok k v Hk Hpre) as (topic & -> & ->).
    apply delete_topics_lookup_elem, elem_of_reverse_topics; [done|by eexists].
Qed.

Lemma GetTopicsBySubscriber_no_entry h s (m : gmap string any) :
  h !! GetMetadata s = Some m →
  (∀ k, String.prefix subTopic k = true → m !! k = None) →
  GetTopicsBySubscriber h s = Some [].
Proof.
  intros Hm Hnone.
  assert (Hok : store_ok m).
  { intros k v Hk Hpre. rewrite Hnone in Hk; done. }
  destruct (GetTopicsBySubscriber_store_ok h s m Hm Hok) as (topics & -> & Hin).
  f_equal. apply elem_of_nil_inv. intros topic [v Hv]%Hin.
  rewrite Hnone in Hv; [done|apply prefix_subTopic].
Qed.

(** C3.  In a state whose reverse-index entries are those [Subscribe]
    writes, [UnSubscribeAll] returns and
    leaves the subscriber without topics; calling it again returns the very
    same emitter and heap; and for a subscriber that has no topics it returns
    the state it was given. *)
Theorem UnSubscribeAll_empties_and_is_idempotent c h s (m : gmap string any) :
  wf_emitter c → h !! GetMetadata s = Some m → store_ok m →
  ∃ c' h',
    UnSubscribeAll c h s = Some (c', h') ∧
    GetTopicsBySubscriber h' s = Some [] ∧
    UnSubscribeAll c' h' s = Some (c', h') ∧
    (GetTopicsBySubscriber h s = Some [] → (c', h') = (c, h)).
Proof.
  intros Hwf Hm Hok.
  destruct (UnSubscribeAll_store_ok c h s m Hwf Hm Hok)
    as (c' & topics & Hrun & Hwf' & Hnone & Hreg).
  eexists c', _. split; [exact Hrun|].
  assert (Hempty : GetTopicsBySubscriber
                     (<[GetMetadata s := delete_topics m topics]> h) s = Some []).
  { eapply GetTopicsBySubscriber_no_entry; [apply lookup_insert_eq|done]. }
  split; [done|]. split.
  - unfold UnSubscribeAll. unfold GetTopicsBySubscriber in Hempty.
    by rewrite Hempty.
  - intros Hnil. unfold UnSubscribeAll in Hrun.
    unfold GetTopicsBySubscriber in Hnil. rewrite Hnil in Hrun. cbn in Hrun.
    injection Hrun as Hc Hh. by rewrite <- Hc, <- Hh.
Qed.

(** C10.  Both readers of the reverse index assert [string] on the value of
    every entry under the reserved prefix.  When all these values are
    strings, as those [Subscribe] stores are, neither panics, and the topics
    returned are the stored values, each once; when some such value is not a
    string, both panic. *)
Theorem reverse_index_type_assertion c h s (m : gmap string any) :
  wf_emitter c → h !! GetMetadata s = Some m →
  ((∀ k v, m !! k = Some v → String.prefix subTopic k = true →
           ∃ topic, v = VString topic) →
   ∃ topics,
     GetTopicsBySubscriber h s = Some topics ∧
     VString <$> topics ≡ₚ reverse_values m ∧
     is_Some (UnSubscribeAll c h s)) ∧
  (∀ k v, m !! k = Some v → String.prefix subTopic k = true →
          topic_of v = None →
          GetTopicsBySubscriber h s = None ∧ UnSubscribeAll c h s = None).
Proof.
  intros Hwf Hm. split.
  - intros Hstr.
    assert (Hstr' : ∀ k v, (k, v) ∈ order any m →
                           String.prefix subTopic k = true → is_Some (topic_of v)).
    { intros k v Hin%elem_of_order Hpre.
      destruct (Hstr k v Hin Hpre) as [topic ->]. by eexists. }
    assert (Hrange : Metadata_Range h (GetMetadata s) collect_topic [] =
                     Some (reverse_topics (order any m))).
    { unfold Metadata_Range, smap_Range. rewrite Hm. cbn.
      by rewrite range_collect_Some. }
    exists (reverse_topics (order any m)). split; [done|]. split.
    + rewrite reverse_topics_values by done. unfold reverse_values.
      by rewrite order_perm.
    + unfold UnSubscribeAll. rewrite Hrange. cbn.
      destruct (UnSubscribeAll_loop_spec c h s (reverse_topics (order any m)) m Hwf Hm)
        as (c' & -> & _). by eexists.
  - intros k v Hk Hpre Hv.
    assert (Hrange : Metadata_Range h (GetMetadata s) collect_topic [] = None).
    { unfold Metadata_Range, smap_Range. rewrite Hm. cbn.
      eapply range_collect_None; [by apply elem_of_order|done..]. }
    unfold GetTopicsBySubscriber, UnSubscribeAll. by rewrite Hrange.
Qed.

(** ** Counting and replacing *)

Lemma size_delete_registered (reg : gmap string topicElement) sid :
  is_Some (reg !! sid) → size reg = S (size (delete sid reg)).
Proof.
  intros [v Hv]. rewrite <- (insert_id reg sid v) at 1 by done.
  rewrite <- insert_delete_eq. apply map_size_insert_None, lookup_delete_eq.
Qed.

Lemma elem_of_events_of sid ev evs :
  ev ∈ evs → GetSubscriberID (event_subscriber ev) = sid → ev ∈ events_of sid evs.
Proof.
  intros Hin Hid. apply list_elem_of_In, filter_In.
  split; [by apply list_elem_of_In|]. by apply bool_decide_eq_true.
Qed.

(** Two subscriptions to one topic under one id, by the same subscriber or
    by another one that has the same id. *)
Lemma Subscribe_same_id c h s1 s2 topic cb1 cb2 (m1 : gmap string any) :
  wf_emitter c → GetSubscriberID s1 = GetSubscriberID s2 →
  h !! GetMetadata s1 = Some m1 → is_Some (h !! GetMetadata s2) →
  ∃ c1 c2 (m2 : gmap string any),
    let h1 := <[GetMetadata s1 := <[subTopic +:+ topic := VString topic]> m1]> h in
    h1 !! GetMetadata s2 = Some m2 ∧
    Subscribe c h s1 topic cb1 = Some (c1, h1) ∧
    Subscribe c1 h1 s2 topic cb2 =
      Some (c2, <[GetMetadata s2 := <[subTopic +:+ topic := VString topic]> m2]> h1) ∧
    wf_emitter c2 ∧
    registration c1 topic !! GetSubscriberID s1 = Some {| suber := s1; cb := cb1 |} ∧
    registration c2 topic =
      <[GetSubscriberID s2 := {| suber := s2; cb := cb2 |}]> (registration c1 topic) ∧
    CountSubscriberByTopic c2 topic = CountSubscriberByTopic c1 topic.
Proof.
  intros Hwf Hid Hm1 [m2 Hm2].
  destruct (Subscribe_spec c h s1 topic cb1 m1 Hwf Hm1) as (c1 & Hsub1 & Hwf1 & Hreg1).
  set (h1 := <[GetMetadata s1 := <[subTopic +:+ topic := VString topic]> m1]> h) in *.
  assert (Hm2' : is_Some (h1 !! GetMetadata s2)).
  { unfold h1. rewrite lookup_insert. case_decide; [by eexists|by rewrite Hm2]. }
  destruct Hm2' as [m2' Hm2'].
  destruct (Subscribe_spec c1 h1 s2 topic cb2 m2' Hwf1 Hm2') as (c2 & Hsub2 & Hwf2 & Hreg2).
  exists c1, c2, m2'. cbn zeta. fold h1.
  assert (Hfirst : registration c1 topic !! GetSubscriberID s1 =
                   Some {| suber := s1; cb := cb1 |}).
  { by rewrite Hreg1, decide_True, lookup_insert_eq. }
  assert (Hsecond : registration c2 topic =
            <[GetSubscriberID s2 := {| suber := s2; cb := cb2 |}]> (registration c1 topic)).
  { by rewrite Hreg2, decide_True. }
  repeat (split; [done|]).
  rewrite !CountSubscriberByTopic_size by done. f_equal.
  rewrite Hsecond. apply map_size_insert_Some. rewrite <- Hid. by eexists.
Qed.

(** C5.  Subscribing [s] to [topic] with [cb1] and then with [cb2] leaves,
    under the id of [s], the one entry [(s, cb2)]; the second call changes
    neither the heap nor the count of the topic; and a publish that follows
    calls [s] once, with [cb2]. *)
Theorem Subscribe_again_replaces_callback c h s topic cb1 cb2 :
  wf_emitter c → is_Some (h !! GetMetadata s) →
  ∃ c1 h1 c2,
    Subscribe c h s topic cb1 = Some (c1, h1) ∧
    Subscribe c1 h1 s topic cb2 = Some (c2, h1) ∧
    registration c1 topic !! GetSubscriberID s = Some {| suber := s; cb := cb1 |} ∧
    registration c2 topic =
      <[GetSubscriberID s := {| suber := s; cb := cb2 |}]> (registration c1 topic) ∧
    registration c2 topic !! GetSubscriberID s = Some {| suber := s; cb := cb2 |} ∧
    CountSubscriberByTopic c2 topic = CountSubscriberByTopic c1 topic ∧
    ∀ msg (r : Run), ∃ evs w' err,
      Publish c2 topic msg r = Some (w', r.2 ++ evs) ∧
      events_of (GetSubscriberID s) evs = [EvCall s cb2 msg err].
Proof.
  intros Hwf [m Hm].
  destruct (Subscribe_same_id c h s s topic cb1 cb2 m Hwf eq_refl Hm)
    as (c1 & c2 & m2 & Hm2 & Hsub1 & Hsub2 & Hwf2 & Hreg1 & Hreg2 & Hcount);
    [by eexists|].
  cbn zeta in *. rewrite lookup_insert_eq in Hm2. simplify_eq.
  rewrite !insert_insert_eq in Hsub2.
  eexists c1, _, c2. repeat (split; [done|]).
  split; [by rewrite Hreg2, lookup_insert_eq|]. split; [done|].
  intros msg r.
  apply (Publish_calls_registered c2 topic msg r _ {| suber := s; cb := cb2 |});
    [done|].
  by rewrite Hreg2, lookup_insert_eq.
Qed.

(** C9.  The registration is keyed by the id alone: when [s2] subscribes to
    a topic that another subscriber [s1] of the same id is subscribed to, the
    entry of [s1] is overwritten, the count stays what it was, and a
    publish calls [s2] once and [s1] not at all. *)
Theorem Subscribe_equal_id_overwrites c h s1 s2 topic cb1 cb2 :
  wf_emitter c → s1 ≠ s2 → GetSubscriberID s1 = GetSubscriberID s2 →
  is_Some (h !! GetMetadata s1) → is_Some (h !! GetMetadata s2) →
  ∃ c1 h1 c2 h2,
    Subscribe c h s1 topic cb1 = Some (c1, h1) ∧
    Subscribe c1 h1 s2 topic cb2 = Some (c2, h2) ∧
    registration c1 topic !! GetSubscriberID s1 = Some {| suber := s1; cb := cb1 |} ∧
    registration c2 topic !! GetSubscriberID s1 = Some {| suber := s2; cb := cb2 |} ∧
    CountSubscriberByTopic c2 topic = CountSubscriberByTopic c1 topic ∧
    ∀ msg (r : Run), ∃ evs w' err,
      Publish c2 topic msg r = Some (w', r.2 ++ evs) ∧
      events_of (GetSubscriberID s2) evs = [EvCall s2 cb2 msg err] ∧
      ∀ ev, ev ∈ evs → event_subscriber ev ≠ s1.
Proof.
  intros Hwf Hne Hid [m1 Hm1] Hm2.
  destruct (Subscribe_same_id c h s1 s2 topic cb1 cb2 m1 Hwf Hid Hm1 Hm2)
    as (c1 & c2 & m2 & _ & Hsub1 & Hsub2 & Hwf2 & Hreg1 & Hreg2 & Hcount).
  cbn zeta in *. eexists c1, _, c2, _. repeat (split; [done|]).
  split; [by rewrite Hreg2, Hid, lookup_insert_eq|]. split; [done|].
  intros msg r.
  destruct (Publish_calls_registered c2 topic msg r (GetSubscriberID s2)
              {| suber := s2; cb := cb2 |} Hwf2)
    as (evs & w' & err & Hrun & Hcalls); [by rewrite Hreg2, lookup_insert_eq|].
  cbn in Hcalls. exists evs, w', err. repeat (split; [done|]).
  intros ev Hin Hev.
  apply (elem_of_events_of (GetSubscriberID s2)) in Hin; [|by rewrite Hev].
  rewrite Hcalls in Hin. apply list_elem_of_singleton in Hin. subst ev.
  cbn in Hev. congruence.
Qed.

(** C6.  For [s] subscribed to [topic], in a state whose reverse-index
    entries are those [Subscribe] writes: [UnSubscribe] takes [topic], and
    nothing else, out of the topics of [s], makes the count of [topic] one
    less, and a second [UnSubscribe] returns the state unchanged.  For [s]
    not subscribed to [topic], [UnSubscribe] returns the state unchanged. *)
Theorem UnSubscribe_removes_one c h s topic (m : gmap string any) :
  wf_emitter c → h !! GetMetadata s = Some m → store_ok m →
  (is_Some (m !! (subTopic +:+ topic)) → registered c s topic →
   ∃ c' h' topics topics' n,
     GetTopicsBySubscriber h s = Some topics ∧ topic ∈ topics ∧
     UnSubscribe c h s topic = Some (c', h') ∧
     GetTopicsBySubscriber h' s = Some topics' ∧
     (∀ t, t ∈ topics' ↔ t ∈ topics ∧ t ≠ topic) ∧
     CountSubscriberByTopic c topic = Some (S n) ∧
     CountSubscriberByTopic c' topic = Some n ∧
     UnSubscribe c' h' s topic = Some (c', h')) ∧
  (m !! (subTopic +:+ topic) = None → ¬ registered c s topic →
   UnSubscribe c h s topic = Some (c, h)).
Proof.
  intros Hwf Hm Hok. split.
  - intros Hkey Hreg.
    destruct (UnSubscribe_spec c h s topic m Hwf Hm) as (c' & Hun & Hwf' & Hreg').
    set (h' := <[GetMetadata s := delete (subTopic +:+ topic) m]> h) in *.
    assert (Hm' : h' !! GetMetadata s = Some (delete (subTopic +:+ topic) m)).
    { apply lookup_insert_eq. }
    destruct (GetTopicsBySubscriber_store_ok h s m Hm Hok) as (topics & Hget & Hin).
    destruct (GetTopicsBySubscriber_store_ok h' s _ Hm' (store_ok_delete _ _ Hok))
      as (topics' & Hget' & Hin').
    exists c', h', topics, topics', (size (delete (GetSubscriberID s) (registration c topic))).
    split; [done|]. split; [by apply Hin|]. split; [done|]. split; [done|].
    split; [|split; [|split]].
    + intros t. rewrite Hin', Hin, lookup_delete_is_Some. split.
      * intros [Hne Ht]. split; [done|]. by intros ->.
      * intros [Ht Hne]. split; [|done]. by intros ?%subTopic_inj.
    + rewrite CountSubscriberByTopic_size by done. f_equal.
      by apply size_delete_registered.
    + rewrite CountSubscriberByTopic_size by done.
      by rewrite Hreg', decide_True.
    + eapply UnSubscribe_absent; [done..|apply lookup_delete_eq|].
      rewrite Hreg', decide_True by done. apply lookup_delete_eq.
  - intros Hkey Hreg. eapply UnSubscribe_absent; [done..|].
    by apply eq_None_not_Some.
Qed.

(** ** New *)

Lemma toBinaryNumber_rounds_up n :
  1 ≤ n ≤ 2 ^ 62 →
  ∃ k, 0 ≤ k ≤ 62 ∧ toBinaryNumber 63 n = Some (2 ^ k) ∧
       n ≤ 2 ^ k ∧ (0 < k → 2 ^ (k - 1) < n).
Proof.
  intros Hn. unfold toBinaryNumber.
  destruct (toBinaryNumber_loop_spec 62 0 n) as (j & Hj & Hrun & Hle & Hmin);
    [lia..|].
  exists j. split; [lia|]. split; [done|]. split; [done|]. exact Hmin.
Qed.

Lemma toBinaryNumber_diverges fuel n :
  2 ^ 62 < n → toBinaryNumber fuel n = None.
Proof.
  intros Hn. unfold toBinaryNumber.
  by apply (toBinaryNumber_loop_diverges 62 0 fuel n).
Qed.

Lemma toBinaryNumber_Some fuel n (num : Z) :
  1 ≤ n → toBinaryNumber fuel n = Some num →
  ∃ k, 0 ≤ k ≤ 62 ∧ num = 2 ^ k.
Proof.
  intros Hn Hrun. destruct (decide (n ≤ 2 ^ 62)) as [Hle|Hgt].
  - destruct (toBinaryNumber_rounds_up n) as (k & Hk & Hrun' & _); [lia|].
    exists k. split; [done|]. unfold toBinaryNumber in *.
    apply (toBinaryNumber_loop_fuel_mono _ (fuel `max` 63)%nat) in Hrun; [|lia].
    apply (toBinaryNumber_loop_fuel_mono _ (fuel `max` 63)%nat) in Hrun'; [|lia].
    congruence.
  - rewrite toBinaryNumber_diverges in Hrun by lia. done.
Qed.

Lemma New_buckets fuel cfg sd c :
  New fuel cfg sd = Some c →
  buckets c = replicate (Z.to_nat (BucketNum (conf c)))
                {| Size := BucketSize (conf c); Topics := ∅ |} ∧
  ∃ k, 0 ≤ k ≤ 62 ∧ BucketNum (conf c) = 2 ^ k.
Proof.
  unfold New, Config_init. intros Hnew.
  destruct (toBinaryNumber fuel _) as [num|] eqn:Hnum; simplify_eq/=.
  split; [done|]. eapply toBinaryNumber_Some; [|done].
  by destruct (Z.leb_spec (BucketNum (default {| BucketNum := 0; BucketSize := 0 |} cfg)) 0);
    lia.
Qed.

Lemma New_wf fuel cfg sd c : New fuel cfg sd = Some c → wf_emitter c.
Proof.
  intros (Hb & k & Hk & Hnum)%New_buckets. split.
  - exists k. rewrite Hb, length_replicate, Hnum. done.
  - rewrite Hb. apply Forall_replicate. intros topic t sid v Ht. cbn in Ht.
    by rewrite lookup_empty in Ht.
Qed.

Lemma New_registration fuel cfg sd c topic :
  New fuel cfg sd = Some c → registration c topic = ∅.
Proof.
  intros (Hb & _)%New_buckets. unfold registration, getBucket. rewrite Hb.
  destruct (replicate _ _ !! _) as [b|] eqn:Hlook; [|done].
  apply lookup_replicate in Hlook as [-> _]. cbn. by rewrite lookup_empty.
Qed.



(** ** The reverse index and the registrations move together *)





Section population.

Variable subs : list T.
Hypothesis subs_distinct : distinct_subscribers subs.





Lemma stores_ok_insert h s (m m' : gmap string any) :
  stores_ok subs h → store_ok m' →
  stores_ok subs (<[GetMetadata s := m']> h).
Proof.
  intros Hok Hm' s0 Hs0. rewrite lookup_insert. case_decide; [by eexists|].
  by apply Hok.
Qed.

Lemma step_progress c h o :
  wf_emitter c → op_subscriber o ∈ subs → stores_ok subs h →
  ∃ c' h', step (c, h) o = Some (c', h') ∧ stores_ok subs h'.
Proof.
  intros Hwf Hs Hok. destruct (Hok _ Hs) as (m & Hm & Hmok).
  destruct o as [s topic f|s topic|s]; cbn in *.
  - destruct (Subscribe_spec c h s topic f m Hwf Hm) as (c' & -> & _).
    eexists _, _. split; [done|]. apply stores_ok_insert; [done..|].
    by apply store_ok_insert.
  - destruct (UnSubscribe_spec c h s topic m Hwf Hm) as (c' & -> & _).
    eexists _, _. split; [done|]. apply stores_ok_insert; [done..|].
    by apply store_ok_delete.
  - destruct (UnSubscribeAll_store_ok c h s m Hwf Hm Hmok)
      as (c' & topics & -> & _ & Hnone & _).
    eexists _, _. split; [done|]. apply stores_ok_insert; [done..|].
    intros k v Hk Hpre. rewrite Hnone in Hk; done.
Qed.



End population.

End emitter_facts.

(** ** The sample data, and the theorems at it *)

(** [Range] stops at the first entry whose visit returns [false]. *)
Example smap_Range_stops :
  ∃ k, smap_Range (<["1"%string := VInt 1]> (<["2"%string := VInt 2]> ∅))
         (λ key _ values, Some (values ++ [key], false)) [] = Some [k].
Proof. eexists. reflexivity. Qed.

Lemma sample_emitter_wf : wf_emitter sample_emitter.
Proof.
  split; [by exists 0|]. repeat constructor.
  intros topic t sid v Ht Hv. cbn in Ht.
  apply lookup_insert_Some in Ht as [[<- <-]|[_ Ht]];
    [|apply lookup_insert_Some in Ht as [[<- <-]|[_ Ht]];
      [|by rewrite lookup_empty in Ht]].
  - apply lookup_insert_Some in Hv as [[<- <-]|[_ Hv]]; [done|].
    apply lookup_insert_Some in Hv as [[<- <-]|[_ Hv]]; [done|].
    by rewrite lookup_empty in Hv.
  - apply lookup_insert_Some in Hv as [[<- <-]|[_ Hv]]; [done|].
    by rewrite lookup_empty in Hv.
Qed.

Lemma single_bucket_wf : wf_emitter (@single_bucket StringSubscriber nat).
Proof.
  split; [by exists 0|]. repeat constructor.
  intros topic t sid v Ht. cbn in Ht. by rewrite lookup_empty in Ht.
Qed.

Lemma alice_store_ok : store_ok alice_store.
Proof.
  apply (store_ok_insert _ "test"), (store_ok_insert _ "oh").
  intros k v Hk. by rewrite lookup_empty in Hk.
Qed.

Lemma alice_store_strings k v :
  alice_store !! k = Some v → String.prefix subTopic k = true →
  ∃ topic, v = VString topic.
Proof.
  intros Hk Hpre. destruct (alice_store_ok k v Hk Hpre) as (topic & _ & ->).
  by exists topic.
Qed.

Lemma alice_has_test : is_Some (alice_store !! (subTopic +:+ "test")).
Proof. eexists. reflexivity. Qed.

Lemma alice_registered : registered sample_emitter alice "test".
Proof. eexists. reflexivity. Qed.

Lemma alice_allocated : is_Some (sample_heap !! GetMetadata alice).
Proof. eexists. reflexivity. Qed.

Lemma alice2_allocated : is_Some (sample_heap !! GetMetadata alice2).
Proof. eexists. reflexivity. Qed.

Lemma alice_alice2_differ : alice ≠ alice2.
Proof. discriminate. Qed.


Lemma Publish_invokes_registered_witness :
  wf_emitter sample_emitter ∧
  ∃ evs w',
    Publish sample_emitter "test" (VString "hello!") (0%nat, []) = Some (w', evs) ∧
    length evs = 2%nat.
Proof.
  split; [exact sample_emitter_wf|].
  destruct (Publish_invokes_registered sample_emitter "test" (VString "hello!")
              (0%nat, []) sample_emitter_wf)
    as (elems & evs & w' & _ & _ & Hrun & Hlen & _).
  exists evs, w'. split; [exact Hrun|]. rewrite Hlen. reflexivity.
Defined.


Lemma UnSubscribeAll_empties_and_is_idempotent_witness :
  wf_emitter sample_emitter ∧
  sample_stores !! GetMetadata alice = Some alice_store ∧
  store_ok alice_store ∧
  ∃ c' h',
    UnSubscribeAll sample_emitter sample_stores alice = Some (c', h') ∧
    GetTopicsBySubscriber h' alice = Some [] ∧
    UnSubscribeAll c' h' alice = Some (c', h').
Proof.
  split; [exact sample_emitter_wf|]. split; [reflexivity|].
  split; [exact alice_store_ok|].
  destruct (UnSubscribeAll_empties_and_is_idempotent sample_emitter sample_stores
              alice alice_store sample_emitter_wf eq_refl alice_store_ok)
    as (c' & h' & Hrun & Hempty & Hagain & _).
  exists c', h'. split; [exact Hrun|]. split; [exact Hempty|exact Hagain].
Defined.

Lemma PublishE_checks_calls_reports_witness :
  wf_emitter sample_emitter ∧
  ∃ evs w',
    PublishE sample_emitter "test" VNil skip_bob count_report (0%nat, []) =
      Some (w', evs) ∧
    (events_of "bob" evs = [EvCheck bob true] ∨
     ∃ err, events_of "bob" evs =
              [EvCheck bob false; EvCall bob failing_cb VNil err; EvResult bob err]).
Proof.
  split; [exact sample_emitter_wf|].
  destruct (PublishE_checks_calls_reports sample_emitter "test" VNil skip_bob
              count_report (0%nat, []) sample_emitter_wf)
    as (elems & evs & w' & _ & _ & Hrun & Hsid).
  exists evs, w'. split; [exact Hrun|]. exact (Hsid "bob"%string).
Defined.

Lemma Subscribe_again_replaces_callback_witness :
  wf_emitter (@single_bucket StringSubscriber nat) ∧
  is_Some (sample_heap !! GetMetadata alice) ∧
  ∃ c1 h1 c2,
    Subscribe single_bucket sample_heap alice "test" count_cb = Some (c1, h1) ∧
    Subscribe c1 h1 alice "test" failing_cb = Some (c2, h1) ∧
    CountSubscriberByTopic c2 "test" = CountSubscriberByTopic c1 "test".
Proof.
  split; [exact single_bucket_wf|]. split; [exact alice_allocated|].
  destruct (Subscribe_again_replaces_callback single_bucket sample_heap alice "test"
              count_cb failing_cb single_bucket_wf alice_allocated)
    as (c1 & h1 & c2 & Hs1 & Hs2 & _ & _ & _ & Hcount & _).
  exists c1, h1, c2. split; [exact Hs1|]. split; [exact Hs2|exact Hcount].
Defined.

Lemma UnSubscribe_removes_one_witness :
  wf_emitter sample_emitter ∧
  sample_stores !! GetMetadata alice = Some alice_store ∧
  store_ok alice_store ∧
  is_Some (alice_store !! (subTopic +:+ "test")) ∧
  registered sample_emitter alice "test" ∧
  ∃ c' h' n,
    UnSubscribe sample_emitter sample_stores alice "test" = Some (c', h') ∧
    CountSubscriberByTopic sample_emitter "test" = Some (S n) ∧
    CountSubscriberByTopic c' "test" = Some n ∧
    UnSubscribe c' h' alice "test" = Some (c', h').
Proof.
  split; [exact sample_emitter_wf|]. split; [reflexivity|].
  split; [exact alice_store_ok|]. split; [exact alice_has_test|].
  split; [exact alice_registered|].
  destruct (proj1 (UnSubscribe_removes_one sample_emitter sample_stores alice "test"
                     alice_store sample_emitter_wf eq_refl alice_store_ok)
              alice_has_test alice_registered)
    as (c' & h' & topics & topics' & n & _ & _ & Hun & _ & _ & Hc & Hc' & Hagain).
  exists c', h', n. split; [exact Hun|]. split; [exact Hc|].
  split; [exact Hc'|exact Hagain].
Defined.


Lemma Publish_without_subscribers_witness :
  wf_emitter sample_emitter ∧ registration sample_emitter "" = ∅ ∧
  Publish sample_emitter "" (VInt 1) (0%nat, []) = Some (0%nat, []).
Proof.
  split; [exact sample_emitter_wf|]. split; [reflexivity|].
  apply (Publish_without_subscribers sample_emitter "" (VInt 1) (0%nat, []));
    [exact sample_emitter_wf|reflexivity].
Defined.

Lemma Subscribe_equal_id_overwrites_witness :
  wf_emitter (@single_bucket StringSubscriber nat) ∧ alice ≠ alice2 ∧
  GetSubscriberID alice = GetSubscriberID alice2 ∧
  ∃ c1 h1 c2 h2,
    Subscribe single_bucket sample_heap alice "test" count_cb = Some (c1, h1) ∧
    Subscribe c1 h1 alice2 "test" failing_cb = Some (c2, h2) ∧
    registration c2 "test" !! "alice" = Some {| suber := alice2; cb := failing_cb |} ∧
    CountSubscriberByTopic c2 "test" = CountSubscriberByTopic c1 "test".
Proof.
  split; [exact single_bucket_wf|]. split; [exact alice_alice2_differ|].
  split; [reflexivity|].
  destruct (Subscribe_equal_id_overwrites single_bucket sample_heap alice alice2
              "test" count_cb failing_cb single_bucket_wf alice_alice2_differ
              eq_refl alice_allocated alice2_allocated)
    as (c1 & h1 & c2 & h2 & Hs1 & Hs2 & _ & Hreg & Hcount & _).
  exists c1, h1, c2, h2. split; [exact Hs1|]. split; [exact Hs2|].
  split; [exact Hreg|exact Hcount].
Defined.

Lemma reverse_index_type_assertion_witness :
  wf_emitter sample_emitter ∧
  sample_stores !! GetMetadata alice = Some alice_store ∧
  ∃ topics,
    GetTopicsBySubscriber sample_stores alice = Some topics ∧
    VString <$> topics ≡ₚ reverse_values alice_store.
Proof.
  split; [exact sample_emitter_wf|]. split; [reflexivity|].
  destruct (proj1 (reverse_index_type_assertion sample_emitter sample_stores alice
                     alice_store sample_emitter_wf eq_refl) alice_store_strings)
    as (topics & Hget & Hperm & _).
  exists topics. split; [exact Hget|exact Hperm].
Defined.

(** The ids have to tell the subscribers apart for the reverse index to
    follow the registrations: [alice2] has the id of [alice] and a store of
    its own, and once [alice] subscribes, the id of [alice2] is registered
    while its store knows nothing of it. *)
Lemma reverse_index_needs_distinct_ids :
  ∃ c h,
    run (single_bucket, sample_heap) [OpSubscribe alice "test" count_cb] =
      Some (c, h) ∧
    registered c alice2 "test" ∧ ¬ has_reverse_entry h alice2 "test".
Proof.
  eexists _, _. split; [reflexivity|]. split; [eexists; reflexivity|].
  intros (m & Hm & Hkey). cbn in Hm. vm_compute in Hm. injection Hm as <-.
  destruct Hkey as [v Hv]. vm_compute in Hv. discriminate.
Qed.

(** ** Where the specification and the code part *)


(** C8 as stated fails: the empty string is a topic like any other, and a
    publish to it calls whoever subscribed to it. *)
Lemma Publish_empty_topic_invokes :
  ∃ c1 h1,
    Subscribe single_bucket sample_heap alice "" count_cb = Some (c1, h1) ∧
    Publish c1 "" (VInt 1) (0%nat, []) =
      Some (1%nat, [EvCall alice count_cb (VInt 1) None]).
Proof. eexists _, _. split; reflexivity. Qed.

(** * Further properties of the code *)

Section emitter_more.

Context {T : Type} `{!Subscriber T} {World : Type} `{!GoRuntime}.

Implicit Types (c : @EventEmitter T World) (b : @bucket T World) (s : T).
Implicit Types (h : Heap) (r : @Run T World).
Implicit Types (elems : list (string * @topicElement T World)).
Implicit Types (evs : list (@Event T World)) (w : World).

Local Abbreviation topicElement := (@topicElement T World).
Local Abbreviation Run := (@Run T World).
Local Abbreviation New := (@New T World).

(** ** Routing *)

(** X1.  On a well-formed emitter [getBucket] finds a bucket for every
    topic, and the mask it applies to the hash is the remainder by the number
    of buckets. *)
Theorem getBucket_index_is_remainder c topic :
  wf_emitter c →
  is_Some (getBucket c topic) ∧
  Z.of_nat (getBucket_index c topic) =
    to_uint64 (maphash_String (seed c) topic) `mod` BucketNum (conf c).
Proof.
  intros Hwf. split; [by apply getBucket_is_Some|].
  destruct Hwf as [(k & Hk & Hnum & Hlen) _]. unfold getBucket_index, to_uint64.
  rewrite Hnum.
  assert (Hpow : 0 < 2 ^ k ≤ 2 ^ 62).
  { split; [apply Z.pow_pos_nonneg; lia | apply Z.pow_le_mono_r; lia]. }
  rewrite (Z.mod_small (2 ^ k - 1)) by lia.
  replace (2 ^ k - 1) with (Z.ones k) by (rewrite Z.ones_equiv; lia).
  rewrite Z.land_ones by lia.
  pose proof (Z.mod_pos_bound (maphash_String (seed c) topic `mod` 2 ^ 64) (2 ^ k)).
  lia.
Qed.

Lemma update_bucket_shape c topic m c' :
  update_bucket c topic m = Some c' →
  conf c' = conf c ∧ seed c' = seed c ∧
  length (buckets c') = length (buckets c).
Proof.
  unfold update_bucket. destruct (getBucket c topic); [|done].
  intros [= <-]. cbn. by rewrite length_insert.
Qed.

Lemma Subscribe_shape c h s topic f c' h' :
  Subscribe c h s topic f = Some (c', h') →
  conf c' = conf c ∧ seed c' = seed c ∧
  length (buckets c') = length (buckets c).
Proof.
  unfold Subscribe. destruct (Metadata_Store _ _ _ _); [|done]. cbn.
  destruct (update_bucket _ _ _) eqn:Hupd; [|done]. cbn. intros [= <- <-].
  by eapply update_bucket_shape.
Qed.

Lemma UnSubscribe_shape c h s topic c' h' :
  UnSubscribe c h s topic = Some (c', h') →
  conf c' = conf c ∧ seed c' = seed c ∧
  length (buckets c') = length (buckets c).
Proof.
  unfold UnSubscribe. destruct (Metadata_Delete _ _ _); [|done]. cbn.
  destruct (update_bucket _ _ _) eqn:Hupd; [|done]. cbn. intros [= <- <-].
  by eapply update_bucket_shape.
Qed.

Lemma UnSubscribeAll_loop_shape topics c h s c' h' :
  UnSubscribeAll_loop c h s topics = Some (c', h') →
  conf c' = conf c ∧ seed c' = seed c ∧
  length (buckets c') = length (buckets c).
Proof.
  revert c h. induction topics as [|topic topics IH]; intros c h Hloop.
  - cbn in Hloop. by simplify_eq.
  - rewrite UnSubscribeAll_loop_cons in Hloop.
    destruct (UnSubscribe c h s topic) as [[c1 h1]|] eqn:Hun; [|done].
    cbn in Hloop. apply IH in Hloop as (-> & -> & ->).
    by eapply UnSubscribe_shape.
Qed.

Lemma step_shape c h o c' h' :
  step (c, h) o = Some (c', h') →
  conf c' = conf c ∧ seed c' = seed c ∧
  length (buckets c') = length (buckets c).
Proof.
  destruct o as [s topic f|s topic|s]; cbn.
  - apply Subscribe_shape.
  - apply UnSubscribe_shape.
  - unfold UnSubscribeAll.
    destruct (Metadata_Range _ _ _ _) as [topics|]; [|done]. cbn.
    apply UnSubscribeAll_loop_shape.
Qed.

(** X2.  No operation that writes touches the configuration, the seed or
    the number of buckets: a topic is routed to the same bucket index for
    the life of the emitter. *)
Theorem step_keeps_routing c h o c' h' :
  step (c, h) o = Some (c', h') →
  conf c' = conf c ∧ seed c' = seed c ∧
  length (buckets c') = length (buckets c) ∧
  ∀ topic, getBucket_index c' topic = getBucket_index c topic.
Proof.
  intros (Hconf & Hseed & Hlen)%step_shape. repeat split; try done.
  intros topic. unfold getBucket_index. by rewrite Hconf, Hseed.
Qed.

(** ** New and the configuration *)

Lemma foldl_TopicStatus_concat (bs : list (@bucket T World)) acc :
  foldl (λ status b, status ++ bucket_TopicStatus b) acc bs =
    acc ++ mjoin (bucket_TopicStatus <$> bs).
Proof.
  revert acc. induction bs as [|b bs IH]; intros acc; cbn.
  - by rewrite app_nil_r.
  - by rewrite IH, app_assoc.
Qed.

Lemma EventEmitter_TopicStatus_concat c :
  EventEmitter_TopicStatus c = mjoin (bucket_TopicStatus <$> buckets c).
Proof. unfold EventEmitter_TopicStatus. by rewrite foldl_TopicStatus_concat. Qed.

Lemma elem_of_bucket_TopicStatus b topic n :
  {| Topic := topic; Count := n |} ∈ bucket_TopicStatus b ↔
  ∃ t : gmap string topicElement, Topics b !! topic = Some t ∧ n = size t.
Proof.
  unfold bucket_TopicStatus. rewrite list_elem_of_fmap. split.
  - intros ([k t] & Heq & Hin). rewrite order_perm in Hin.
    apply elem_of_map_to_list in Hin. cbn in Heq. simplify_eq. by exists t.
  - intros (t & Ht & ->). exists (topic, t). split; [done|].
    rewrite order_perm. by apply elem_of_map_to_list.
Qed.

Lemma elem_of_EventEmitter_TopicStatus c topic n :
  {| Topic := topic; Count := n |} ∈ EventEmitter_TopicStatus c ↔
  ∃ i b (t : gmap string topicElement),
    buckets c !! i = Some b ∧ Topics b !! topic = Some t ∧ n = size t.
Proof.
  rewrite EventEmitter_TopicStatus_concat. split.
  - intros (l & Hin & Hl)%list_elem_of_join.
    apply list_elem_of_fmap in Hl as (b & -> & Hb).
    apply list_elem_of_lookup in Hb as [i Hi].
    apply elem_of_bucket_TopicStatus in Hin as (t & Ht & ->). by exists i, b, t.
  - intros (i & b & t & Hi & Ht & ->). apply list_elem_of_join.
    exists (bucket_TopicStatus b). split.
    + apply elem_of_bucket_TopicStatus. by exists t.
    + apply list_elem_of_fmap. exists b. split; [done|].
      by eapply list_elem_of_lookup_2.
Qed.

Lemma New_routed fuel cfg sd c : New fuel cfg sd = Some c → routed c.
Proof.
  intros (Hb & _)%New_buckets i b topic Hi [t Ht]. rewrite Hb in Hi.
  apply lookup_replicate in Hi as [-> _]. cbn in Ht.
  by rewrite lookup_empty in Ht.
Qed.

(** X3.  What [New] returns is well formed and empty: every bucket has the
    configured size hint and no topic, so every count is 0 and the status
    list is empty. *)
Theorem New_is_empty fuel cfg sd c :
  New fuel cfg sd = Some c →
  wf_emitter c ∧ routed c ∧
  (∀ b, b ∈ buckets c → Size b = BucketSize (conf c) ∧ Topics b = ∅) ∧
  0 ≤ BucketSize (conf c) ∧
  (∀ topic, CountSubscriberByTopic c topic = Some 0%nat) ∧
  EventEmitter_TopicStatus c = [].
Proof.
  intros Hnew. pose proof (New_wf _ _ _ _ Hnew) as Hwf.
  split; [done|]. split; [by eapply New_routed|].
  destruct (New_buckets _ _ _ _ Hnew) as [Hb _].
  split; [|split; [|split]].
  - intros b Hin. rewrite Hb in Hin. by apply elem_of_replicate in Hin as [-> _].
  - unfold New, Config_init in Hnew.
    destruct (toBinaryNumber fuel _); simplify_eq/=.
    destruct (Z.leb_spec (BucketSize (default {| BucketNum := 0; BucketSize := 0 |} cfg)) 0);
      lia.
  - intros topic. rewrite CountSubscriberByTopic_size by done.
    by rewrite (New_registration _ _ _ _ _ Hnew), map_size_empty.
  - apply elem_of_nil_inv. intros [topic n] Hin.
    apply elem_of_EventEmitter_TopicStatus in Hin as (i & b & t & Hi & Ht & _).
    rewrite Hb in Hi. apply lookup_replicate in Hi as [-> _]. cbn in Ht.
    by rewrite lookup_empty in Ht.
Qed.

Lemma toBinaryNumber_power k fuel :
  0 ≤ k ≤ 62 → (63 ≤ fuel)%nat → toBinaryNumber fuel (2 ^ k) = Some (2 ^ k).
Proof.
  intros Hk Hfuel.
  assert (Hpow : 1 ≤ 2 ^ k ≤ 2 ^ 62).
  { split; [pose proof (Z.pow_pos_nonneg 2 k); lia | apply Z.pow_le_mono_r; lia]. }
  destruct (toBinaryNumber_rounds_up (2 ^ k) Hpow) as (j & Hj & Hrun & Hle & Hmin).
  assert (j = k) as ->.
  { apply Z.pow_le_mono_r_iff in Hle; [|lia..].
    destruct (decide (j = k)) as [|Hne]; [done|].
    assert (0 < j) as Hpos%Hmin by lia.
    apply Z.pow_lt_mono_r_iff in Hpos; lia. }
  unfold toBinaryNumber in *. by eapply toBinaryNumber_loop_fuel_mono.
Qed.

(** X4.  A configuration that [init] has normalised has at least one
    bucket, a power of two of them, and a size hint that is not negative;
    normalising it again changes nothing. *)
Theorem Config_init_idempotent fuel cfg cfg' :
  Config_init fuel cfg = Some cfg' →
  (∃ k, 0 ≤ k ≤ 62 ∧ BucketNum cfg' = 2 ^ k) ∧
  0 ≤ BucketSize cfg' ∧
  ∀ fuel', (63 ≤ fuel')%nat → Config_init fuel' cfg' = Some cfg'.
Proof.
  unfold Config_init. intros Hinit.
  destruct (toBinaryNumber fuel _) as [num|] eqn:Hnum; simplify_eq/=.
  assert (Hk : ∃ k, 0 ≤ k ≤ 62 ∧ num = 2 ^ k).
  { eapply toBinaryNumber_Some; [|done].
    destruct (Z.leb_spec (BucketNum cfg) 0); lia. }
  destruct Hk as (k & Hk & ->).
  assert (Hsize : 0 ≤ (if BucketSize cfg <=? 0 then 0 else BucketSize cfg)).
  { destruct (Z.leb_spec (BucketSize cfg) 0); lia. }
  split; [by exists k|]. split; [done|].
  intros fuel' Hfuel.
  assert (0 < 2 ^ k) by (apply Z.pow_pos_nonneg; lia).
  destruct (Z.leb_spec (2 ^ k) 0); [lia|].
  rewrite toBinaryNumber_power by done. cbn. do 2 f_equal.
  destruct (Z.leb_spec (BucketSize cfg) 0); [done|].
  destruct (Z.leb_spec (BucketSize cfg) 0); [lia|done].
Qed.

(** ** What Subscribe and UnSubscribe change, and what they leave *)

Lemma Metadata_Load_lookup h l (m : gmap string any) key :
  h !! l = Some m →
  Metadata_Load h l key =
    Some (match m !! key with Some value => (value, true) | None => (VNil, false) end).
Proof. intros Hm. unfold Metadata_Load. by rewrite Hm. Qed.

(** X5.  After [Subscribe] of [s] to [topic], in a state whose reverse
    index is that of [Subscribe]: the topics of [s] contain [topic], [Load]
    of the reverse-index key finds the topic string, the registration holds
    [s] with the callback, and the count of the topic is at least one. *)
Theorem Subscribe_registers c h s topic f (m : gmap string any) :
  wf_emitter c → h !! GetMetadata s = Some m → store_ok m →
  ∃ c' h' topics n,
    Subscribe c h s topic f = Some (c', h') ∧
    GetTopicsBySubscriber h' s = Some topics ∧ topic ∈ topics ∧
    Metadata_Load h' (GetMetadata s) (subTopic +:+ topic) =
      Some (VString topic, true) ∧
    registration c' topic !! GetSubscriberID s = Some {| suber := s; cb := f |} ∧
    CountSubscriberByTopic c' topic = Some (S n).
Proof.
  intros Hwf Hm Hok.
  destruct (Subscribe_spec c h s topic f m Hwf Hm) as (c' & Hsub & Hwf' & Hreg).
  set (m' := <[subTopic +:+ topic := VString topic]> m) in *.
  set (h' := <[GetMetadata s := m']> h) in *.
  assert (Hm' : h' !! GetMetadata s = Some m') by apply lookup_insert_eq.
  destruct (GetTopicsBySubscriber_store_ok h' s m' Hm' (store_ok_insert _ _ Hok))
    as (topics & Hget & Hin).
  assert (Hentry : registration c' topic !! GetSubscriberID s =
                   Some {| suber := s; cb := f |}).
  { by rewrite Hreg, decide_True, lookup_insert_eq. }
  exists c', h', topics,
    (size (delete (GetSubscriberID s) (registration c' topic))).
  split; [done|]. split; [done|]. split.
  { apply Hin. unfold m'. rewrite lookup_insert_eq. by eexists. }
  split.
  { rewrite (Metadata_Load_lookup _ _ m') by done. unfold m'.
    by rewrite lookup_insert_eq. }
  split; [done|].
  rewrite CountSubscriberByTopic_size by done. f_equal.
  apply size_delete_registered. by eexists.
Qed.

(** X6.  [Subscribe] of [s] to [topic] writes one key of the store of [s]
    and one entry of the registration of [topic], and nothing else: the
    other stores, the other keys, the other topics and the other ids of the
    topic are as before, and the count of the topic grows by one exactly when
    [s] was not registered. *)
Theorem Subscribe_frame c h s topic f (m : gmap string any) :
  wf_emitter c → h !! GetMetadata s = Some m →
  ∃ c' h' (m' : gmap string any),
    Subscribe c h s topic f = Some (c', h') ∧
    h' !! GetMetadata s = Some m' ∧
    (∀ l, l ≠ GetMetadata s → h' !! l = h !! l) ∧
    (∀ k, k ≠ subTopic +:+ topic → m' !! k = m !! k) ∧
    (∀ t, t ≠ topic → registration c' t = registration c t) ∧
    (∀ sid, sid ≠ GetSubscriberID s →
            registration c' topic !! sid = registration c topic !! sid) ∧
    CountSubscriberByTopic c' topic =
      Some (if decide (registered c s topic) then size (registration c topic)
            else S (size (registration c topic))).
Proof.
  intros Hwf Hm.
  destruct (Subscribe_spec c h s topic f m Hwf Hm) as (c' & Hsub & Hwf' & Hreg).
  eexists c', _, _. split; [exact Hsub|].
  split; [apply lookup_insert_eq|].
  split; [by intros l Hl; rewrite lookup_insert_ne|].
  split; [by intros k Hk; rewrite lookup_insert_ne|].
  split; [by intros t Ht; rewrite Hreg, decide_False|].
  split.
  { intros sid Hsid. by rewrite Hreg, decide_True, lookup_insert_ne. }
  rewrite CountSubscriberByTopic_size, Hreg, decide_True by done. f_equal.
  unfold registered. case_decide as Hin.
  - by apply map_size_insert_Some.
  - apply map_size_insert_None. by apply eq_None_not_Some.
Qed.

(** X7.  [UnSubscribe] of [s] from [topic] removes one key of the store of
    [s] and one entry of the registration of [topic], and nothing else:
    [Load] of the key then finds nothing, [s] is no longer registered, every
    other key, store, topic and subscriber is as before, and the count of
    the topic falls by one exactly when [s] was registered. *)
Theorem UnSubscribe_frame c h s topic (m : gmap string any) :
  wf_emitter c → h !! GetMetadata s = Some m →
  ∃ c' h' (m' : gmap string any),
    UnSubscribe c h s topic = Some (c', h') ∧
    h' !! GetMetadata s = Some m' ∧
    Metadata_Load h' (GetMetadata s) (subTopic +:+ topic) = Some (VNil, false) ∧
    ¬ registered c' s topic ∧
    (∀ l, l ≠ GetMetadata s → h' !! l = h !! l) ∧
    (∀ k, k ≠ subTopic +:+ topic → m' !! k = m !! k) ∧
    (∀ t, t ≠ topic → registration c' t = registration c t) ∧
    (∀ sid, sid ≠ GetSubscriberID s →
            registration c' topic !! sid = registration c topic !! sid) ∧
    CountSubscriberByTopic c' topic =
      Some (if decide (registered c s topic) then pred (size (registration c topic))
            else size (registration c topic)).
Proof.
  intros Hwf Hm.
  destruct (UnSubscribe_spec c h s topic m Hwf Hm) as (c' & Hun & Hwf' & Hreg).
  eexists c', _, _. split; [exact Hun|].
  split; [apply lookup_insert_eq|].
  split.
  { rewrite (Metadata_Load_lookup _ _ (delete (subTopic +:+ topic) m))
      by apply lookup_insert_eq.
    by rewrite lookup_delete_eq. }
  split.
  { unfold registered. rewrite Hreg, decide_True, lookup_delete_eq by done.
    by intros [? ?]. }
  split; [by intros l Hl; rewrite lookup_insert_ne|].
  split; [by intros k Hk; rewrite lookup_delete_ne|].
  split; [by intros t Ht; rewrite Hreg, decide_False|].
  split.
  { intros sid Hsid. by rewrite Hreg, decide_True, lookup_delete_ne. }
  rewrite CountSubscriberByTopic_size, Hreg, decide_True by done. f_equal.
  unfold registered. case_decide as Hin.
  - by apply map_size_delete_Some.
  - apply map_size_delete_None. by apply eq_None_not_Some.
Qed.

Lemma update_bucket_getBucket c topic m b c' :
  getBucket c topic = Some b → update_bucket c topic m = Some c' →
  getBucket c' topic = Some (m b).
Proof.
  intros Hb Hupd. unfold update_bucket in Hupd. rewrite Hb in Hupd.
  simplify_eq/=. unfold getBucket, getBucket_index. cbn.
  fold (getBucket_index c topic). apply list_lookup_insert_eq.
  unfold getBucket in Hb. by eapply lookup_lt_Some.
Qed.



Lemma Subscribe_update_bucket c h s topic f c' h' :
  Subscribe c h s topic f = Some (c', h') →
  update_bucket c topic (λ b, bucket_subscribe b s topic f) = Some c'.
Proof.
  unfold Subscribe. destruct (Metadata_Store _ _ _ _); [|done]. cbn.
  destruct (update_bucket _ _ _); [|done]. cbn. by intros [= <- <-].
Qed.

Lemma UnSubscribe_update_bucket c h s topic c' h' :
  UnSubscribe c h s topic = Some (c', h') →
  update_bucket c topic (λ b, bucket_unSubscribe b s topic) = Some c'.
Proof.
  unfold UnSubscribe. destruct (Metadata_Delete _ _ _); [|done]. cbn.
  destruct (update_bucket _ _ _); [|done]. cbn. by intros [= <- <-].
Qed.



Lemma delete_topics_lookup_other (m : gmap string any) topics k :
  String.prefix subTopic k = false → delete_topics m topics !! k = m !! k.
Proof.
  intros Hpre. revert m. induction topics as [|topic topics IH]; intros m; [done|].
  cbn. rewrite IH. apply lookup_delete_ne. intros <-.
  by rewrite prefix_subTopic in Hpre.
Qed.

Lemma UnSubscribeAll_run c h s (m : gmap string any) :
  wf_emitter c → h !! GetMetadata s = Some m → store_ok m →
  ∃ c',
    UnSubscribeAll c h s =
      Some (c', <[GetMetadata s :=
                    delete_topics m (reverse_topics (order any m))]> h) ∧
    wf_emitter c' ∧
    ∀ t, registration c' t =
           if decide (is_Some (m !! (subTopic +:+ t)))
           then delete (GetSubscriberID s) (registration c t)
           else registration c t.
Proof.
  intros Hwf Hm Hok.
  destruct (UnSubscribeAll_loop_spec c h s (reverse_topics (order any m)) m Hwf Hm)
    as (c' & Hloop & Hwf' & Hreg).
  exists c'. split; [|split; [done|]].
  - unfold UnSubscribeAll, Metadata_Range, smap_Range. rewrite Hm. cbn.
    rewrite range_collect_Some; [done|].
    intros k v. by apply store_ok_strings.
  - intros t. rewrite Hreg. apply decide_ext. by apply elem_of_reverse_topics.
Qed.

(** X9.  [UnSubscribeAll] of [s], in a state whose reverse index is that of
    [Subscribe]: the store of [s] loses the keys under the reserved prefix
    and keeps every other key; the other stores are as before; and [s] is
    taken out of the registration of exactly the topics its store named. *)
Theorem UnSubscribeAll_effect c h s (m : gmap string any) :
  wf_emitter c → h !! GetMetadata s = Some m → store_ok m →
  ∃ c' h' (m' : gmap string any),
    UnSubscribeAll c h s = Some (c', h') ∧
    h' !! GetMetadata s = Some m' ∧
    (∀ l, l ≠ GetMetadata s → h' !! l = h !! l) ∧
    (∀ k, m' !! k = if String.prefix subTopic k then None else m !! k) ∧
    ∀ t, registration c' t =
           if decide (is_Some (m !! (subTopic +:+ t)))
           then delete (GetSubscriberID s) (registration c t)
           else registration c t.
Proof.
  intros Hwf Hm Hok.
  destruct (UnSubscribeAll_run c h s m Hwf Hm Hok) as (c' & Hrun & Hwf' & Hreg).
  eexists c', _, _. split; [exact Hrun|].
  split; [apply lookup_insert_eq|].
  split; [by intros l Hl; rewrite lookup_insert_ne|].
  split.
  - intros k. destruct (String.prefix subTopic k) eqn:Hpre;
      [|by apply delete_topics_lookup_other].
    destruct (m !! k) as [v|] eqn:Hk; [|by apply delete_topics_lookup_None].
    destruct (Hok k v Hk Hpre) as (topic & -> & ->).
    apply delete_topics_lookup_elem, elem_of_reverse_topics; [done|by eexists].
  - exact Hreg.
Qed.

(** ** The status of the topics *)

Lemma elem_of_Topic_bucket_TopicStatus b topic :
  topic ∈ Topic <$> bucket_TopicStatus b ↔ is_Some (Topics b !! topic).
Proof.
  rewrite list_elem_of_fmap. split.
  - intros ([topic' n] & -> & Hin). cbn.
    apply elem_of_bucket_TopicStatus in Hin as (t & Ht & _). by eexists.
  - intros [t Ht]. exists {| Topic := topic; Count := size t |}. split; [done|].
    apply elem_of_bucket_TopicStatus. by exists t.
Qed.

Lemma NoDup_Topic_bucket_TopicStatus b :
  NoDup (Topic <$> bucket_TopicStatus b).
Proof.
  unfold bucket_TopicStatus. rewrite <- list_fmap_compose.
  replace (Topic ∘ (λ kt : string * gmap string topicElement,
                      {| Topic := kt.1; Count := size kt.2 |}) <$> order _ (Topics b))
    with ((order _ (Topics b)).*1) by (by apply list_fmap_ext).
  rewrite order_perm. apply NoDup_fst_map_to_list.
Qed.

Lemma NoDup_Topic_join (bs : list (@bucket T World)) :
  (∀ i j b b' topic,
     bs !! i = Some b → bs !! j = Some b' →
     is_Some (Topics b !! topic) → is_Some (Topics b' !! topic) → i = j) →
  NoDup (Topic <$> mjoin (bucket_TopicStatus <$> bs)).
Proof.
  induction bs as [|b bs IH]; intros Hdisj; [constructor|].
  cbn. rewrite fmap_app. apply NoDup_app. split; [|split].
  - apply NoDup_Topic_bucket_TopicStatus.
  - intros topic Hb%elem_of_Topic_bucket_TopicStatus Hin.
    apply list_elem_of_fmap in Hin as ([topic' n] & -> & Hin). cbn in Hb.
    apply list_elem_of_join in Hin as (l & Hin & Hl).
    apply list_elem_of_fmap in Hl as (b' & -> & Hb').
    apply list_elem_of_lookup in Hb' as [j Hj].
    apply elem_of_bucket_TopicStatus in Hin as (t & Ht & _).
    by specialize (Hdisj 0%nat (S j) b b' topic' eq_refl Hj Hb (mk_is_Some _ _ Ht)).
  - apply IH. intros i j b1 b2 topic Hi Hj H1 H2.
    by specialize (Hdisj (S i) (S j) b1 b2 topic Hi Hj H1 H2) as [= ->].
Qed.

(** X10.  When every topic sits in the bucket it is routed to, as it does
    in an emitter that [New] made, [TopicStatus] lists each topic that has
    a table entry exactly once, with the number [CountSubscriberByTopic]
    gives for it, and lists nothing else. *)
Theorem TopicStatus_exact c :
  routed c →
  NoDup (Topic <$> EventEmitter_TopicStatus c) ∧
  ∀ topic n,
    {| Topic := topic; Count := n |} ∈ EventEmitter_TopicStatus c ↔
    ∃ b (t : gmap string topicElement),
      getBucket c topic = Some b ∧ Topics b !! topic = Some t ∧
      n = size t ∧ CountSubscriberByTopic c topic = Some n.
Proof.
  intros Hrouted. split.
  - rewrite EventEmitter_TopicStatus_concat. apply NoDup_Topic_join.
    intros i j b b' topic Hi Hj Hb Hb'.
    by rewrite <- (Hrouted i b topic Hi Hb), <- (Hrouted j b' topic Hj Hb').
  - intros topic n. rewrite elem_of_EventEmitter_TopicStatus. split.
    + intros (i & b & t & Hi & Ht & ->). exists b, t.
      assert (Hb : getBucket c topic = Some b).
      { unfold getBucket. by rewrite (Hrouted i b topic Hi (mk_is_Some _ _ Ht)). }
      repeat split; try done.
      unfold CountSubscriberByTopic, bucket_countTopicSubscriber.
      rewrite Hb. cbn. by rewrite Ht.
    + intros (b & t & Hb & Ht & -> & _). by exists (getBucket_index c topic), b, t.
Qed.

Lemma update_bucket_routed c topic m c' :
  routed c → update_bucket c topic m = Some c' →
  (∀ b t, is_Some (Topics (m b) !! t) → t = topic ∨ is_Some (Topics b !! t)) →
  routed c'.
Proof.
  intros Hrouted Hupd Hm. unfold update_bucket in Hupd.
  destruct (getBucket c topic) as [b|] eqn:Hb; simplify_eq/=.
  intros j b' t Hj Ht. unfold getBucket_index. cbn in *.
  fold (getBucket_index c t).
  apply list_lookup_insert_Some in Hj as [(<- & <- & _)|[Hne Hj]].
  - destruct (Hm b t Ht) as [->|Ht']; [done|]. by apply (Hrouted _ b).
  - by apply (Hrouted _ b').
Qed.

Lemma Subscribe_routed c h s topic f c' h' :
  routed c → Subscribe c h s topic f = Some (c', h') → routed c'.
Proof.
  intros Hrouted Hsub%Subscribe_update_bucket.
  eapply update_bucket_routed; [done..|]. intros b t. cbn.
  rewrite bucket_subscribe_Topics. case_decide; [by left|by right].
Qed.

Lemma UnSubscribe_routed c h s topic c' h' :
  routed c → UnSubscribe c h s topic = Some (c', h') → routed c'.
Proof.
  intros Hrouted Hun%UnSubscribe_update_bucket.
  eapply update_bucket_routed; [done..|]. intros b t. cbn.
  rewrite bucket_unSubscribe_Topics. case_decide; [by left|by right].
Qed.

Lemma UnSubscribeAll_loop_routed topics c h s c' h' :
  routed c → UnSubscribeAll_loop c h s topics = Some (c', h') → routed c'.
Proof.
  revert c h. induction topics as [|topic topics IH]; intros c h Hrouted Hloop.
  - cbn in Hloop. by simplify_eq.
  - rewrite UnSubscribeAll_loop_cons in Hloop.
    destruct (UnSubscribe c h s topic) as [[c1 h1]|] eqn:Hun; [|done].
    cbn in Hloop. eapply IH; [|done]. by eapply UnSubscribe_routed.
Qed.

Lemma step_routed c h o c' h' :
  routed c → step (c, h) o = Some (c', h') → routed c'.
Proof.
  intros Hrouted. destruct o as [s topic f|s topic|s]; cbn.
  - by apply Subscribe_routed.
  - by apply UnSubscribe_routed.
  - unfold UnSubscribeAll.
    destruct (Metadata_Range _ _ _ _) as [topics|]; [|done]. cbn.
    by apply UnSubscribeAll_loop_routed.
Qed.

Lemma Subscribe_wf c h s topic f c' h' :
  wf_emitter c → Subscribe c h s topic f = Some (c', h') → wf_emitter c'.
Proof.
  intros Hwf Hsub%Subscribe_update_bucket.
  eapply update_bucket_wf; [done| |done]. intros b. apply bucket_subscribe_ok.
Qed.

Lemma UnSubscribe_wf c h s topic c' h' :
  wf_emitter c → UnSubscribe c h s topic = Some (c', h') → wf_emitter c'.
Proof.
  intros Hwf Hun%UnSubscribe_update_bucket.
  eapply update_bucket_wf; [done| |done]. intros b. apply bucket_unSubscribe_ok.
Qed.

Lemma UnSubscribeAll_loop_wf topics c h s c' h' :
  wf_emitter c → UnSubscribeAll_loop c h s topics = Some (c', h') → wf_emitter c'.
Proof.
  revert c h. induction topics as [|topic topics IH]; intros c h Hwf Hloop.
  - cbn in Hloop. by simplify_eq.
  - rewrite UnSubscribeAll_loop_cons in Hloop.
    destruct (UnSubscribe c h s topic) as [[c1 h1]|] eqn:Hun; [|done].
    cbn in Hloop. eapply IH; [|done]. by eapply UnSubscribe_wf.
Qed.

Lemma step_wf c h o c' h' :
  wf_emitter c → step (c, h) o = Some (c', h') → wf_emitter c'.
Proof.
  intros Hwf. destruct o as [s topic f|s topic|s]; cbn.
  - by apply Subscribe_wf.
  - by apply UnSubscribe_wf.
  - unfold UnSubscribeAll.
    destruct (Metadata_Range _ _ _ _) as [topics|]; [|done]. cbn.
    by apply UnSubscribeAll_loop_wf.
Qed.

(** X11.  From a new emitter and stores whose reverse index is well
    formed, every sequence of [Subscribe], [UnSubscribe] and
    [UnSubscribeAll] runs to its end without a panic, whatever the ids of
    the subscribers, and ends in a well-formed emitter of the same
    configuration in which every topic sits in the bucket it is routed to,
    with stores that are well formed again. *)
Theorem run_never_panics (subs : list T) fuel cfg sd c0 h0 ops :
  New fuel cfg sd = Some c0 → stores_ok subs h0 →
  Forall (λ o, op_subscriber o ∈ subs) ops →
  ∃ c h,
    run (c0, h0) ops = Some (c, h) ∧
    wf_emitter c ∧ routed c ∧ stores_ok subs h ∧
    conf c = conf c0 ∧ length (buckets c) = length (buckets c0).
Proof.
  intros Hnew Hok Hops.
  pose proof (New_wf _ _ _ _ Hnew) as Hwf.
  pose proof (New_routed _ _ _ _ Hnew) as Hrouted.
  clear Hnew. revert c0 h0 Hok Hwf Hrouted.
  induction ops as [|o ops IH]; intros c0 h0 Hok Hwf Hrouted.
  - by exists c0, h0.
  - apply Forall_cons in Hops as [Ho Hops].
    destruct (step_progress subs c0 h0 o Hwf Ho Hok) as (c1 & h1 & Hstep & Hok1).
    destruct (IH Hops c1 h1 Hok1) as (c & h & Hrun & Hwf' & Hrouted' & Hok' & Hconf & Hlen).
    { by eapply step_wf. }
    { by eapply step_routed. }
    exists c, h. cbn [run]. rewrite Hstep. cbn.
    apply step_shape in Hstep as (Hconf1 & _ & Hlen1).
    repeat (split; [done|]). split; congruence.
Qed.

(** X12.  A registration that has become empty is not removed: after the
    only subscriber of a topic has unsubscribed, the topic is still listed
    by [TopicStatus], with the count 0. *)
Theorem empty_registration_stays_listed c h s topic f (m : gmap string any) :
  wf_emitter c → h !! GetMetadata s = Some m → registration c topic = ∅ →
  ∃ c1 h1 c2 h2,
    Subscribe c h s topic f = Some (c1, h1) ∧
    UnSubscribe c1 h1 s topic = Some (c2, h2) ∧
    {| Topic := topic; Count := 0 |} ∈ EventEmitter_TopicStatus c2 ∧
    CountSubscriberByTopic c2 topic = Some 0%nat.
Proof.
  intros Hwf Hm Hempty.
  destruct (Subscribe_spec c h s topic f m Hwf Hm) as (c1 & Hsub & Hwf1 & Hreg1).
  set (h1 := <[GetMetadata s := <[subTopic +:+ topic := VString topic]> m]> h) in *.
  destruct (UnSubscribe_spec c1 h1 s topic
              (<[subTopic +:+ topic := VString topic]> m) Hwf1)
    as (c2 & Hun & Hwf2 & Hreg2); [apply lookup_insert_eq|].
  eexists c1, _, c2, _. split; [exact Hsub|]. split; [exact Hun|].
  destruct (getBucket_is_Some c topic Hwf) as [b Hb].
  pose proof (update_bucket_getBucket _ _ _ _ _ Hb (Subscribe_update_bucket _ _ _ _ _ _ _ Hsub))
    as Hb1.
  pose proof (update_bucket_getBucket _ _ _ _ _ Hb1 (UnSubscribe_update_bucket _ _ _ _ _ _ Hun))
    as Hb2.
  cbn in Hb2. split.
  - apply elem_of_EventEmitter_TopicStatus.
    eexists (getBucket_index c2 topic), _, _. split; [exact Hb2|].
    rewrite bucket_unSubscribe_Topics, decide_True by done.
    rewrite bucket_subscribe_Topics, decide_True by done. cbn.
    split; [done|].
    rewrite <- (registration_bucket _ _ _ Hb), Hempty.
    by rewrite delete_insert_id, map_size_empty by apply lookup_empty.
  - rewrite CountSubscriberByTopic_size by done.
    rewrite Hreg2, decide_True, Hreg1, decide_True, Hempty by done.
    by rewrite delete_insert_id, map_size_empty by apply lookup_empty.
Qed.

(** ** Ranging over a store, in general *)

Lemma range_entries_all (entries acc : list (string * any)) :
  range_entries (λ key value visited, Some (visited ++ [(key, value)], true))
    entries acc = Some (acc ++ entries).
Proof.
  revert acc. induction entries as [|[k v] entries IH]; intros acc; cbn.
  - by rewrite app_nil_r.
  - by rewrite IH, <- app_assoc.
Qed.

(** X13.  [Range] with a visitor that keeps returning [true] visits every
    entry of the store exactly once; with a visitor that returns [false] it
    stops after the first entry it visits, which is an entry of the store;
    and on an empty store it visits nothing. *)
Theorem smap_Range_visits (c : gmap string any) :
  (∃ visited,
     smap_Range c (λ key value visited, Some (visited ++ [(key, value)], true)) []
       = Some visited ∧
     visited ≡ₚ map_to_list c) ∧
  (c ≠ ∅ →
   ∃ key value,
     c !! key = Some value ∧
     smap_Range c (λ key value visited, Some (visited ++ [(key, value)], false)) []
       = Some [(key, value)]) ∧
  (c = ∅ →
   ∀ A (f : string → any → A → option (A * bool)) acc,
     smap_Range c f acc = Some acc).
Proof.
  unfold smap_Range. split; [|split].
  - exists (order any c). split; [apply range_entries_all|apply order_perm].
  - intros Hne. destruct (order any c) as [|[k v] rest] eqn:Horder.
    + pose proof (order_perm any c) as Hperm. rewrite Horder in Hperm.
      symmetry in Hperm. apply Permutation_nil_r, map_to_list_empty_iff in Hperm.
      done.
    + exists k, v. split; [|done].
      apply elem_of_map_to_list. rewrite <- order_perm, Horder. by left.
  - intros -> A f acc.
    pose proof (order_perm any ∅) as Hperm. rewrite map_to_list_empty in Hperm.
    apply Permutation_nil_r in Hperm. by rewrite Hperm.
Qed.

(** ** The calls of PublishE, counted *)



(** ** Subscriptions in either order *)

(** X15.  Two subscriptions that differ in the topic or in the id of the
    subscriber can be made in either order: both orders return, with the
    same heap and the same registration of every topic. *)
Theorem Subscribe_commute c h s1 s2 topic1 topic2 f1 f2 :
  wf_emitter c →
  is_Some (h !! GetMetadata s1) → is_Some (h !! GetMetadata s2) →
  topic1 ≠ topic2 ∨ GetSubscriberID s1 ≠ GetSubscriberID s2 →
  ∃ c1 h1 c2 h2 c12 c21 h',
    Subscribe c h s1 topic1 f1 = Some (c1, h1) ∧
    Subscribe c1 h1 s2 topic2 f2 = Some (c12, h') ∧
    Subscribe c h s2 topic2 f2 = Some (c2, h2) ∧
    Subscribe c2 h2 s1 topic1 f1 = Some (c21, h') ∧
    ∀ t, registration c12 t = registration c21 t.
Proof.
  intros Hwf [m1 Hm1] [m2 Hm2] Hdiff.
  destruct (Subscribe_spec c h s1 topic1 f1 m1 Hwf Hm1) as (c1 & Hs1 & Hwf1 & Hreg1).
  destruct (Subscribe_spec c h s2 topic2 f2 m2 Hwf Hm2) as (c2 & Hs2 & Hwf2 & Hreg2).
  set (h1 := <[GetMetadata s1 := <[subTopic +:+ topic1 := VString topic1]> m1]> h) in *.
  set (h2 := <[GetMetadata s2 := <[subTopic +:+ topic2 := VString topic2]> m2]> h) in *.
  assert (Hregs : ∀ c12 c21,
            (∀ t, registration c12 t =
                  if decide (t = topic2)
                  then <[GetSubscriberID s2 := {| suber := s2; cb := f2 |}]>
                         (registration c1 topic2)
                  else registration c1 t) →
            (∀ t, registration c21 t =
                  if decide (t = topic1)
                  then <[GetSubscriberID s1 := {| suber := s1; cb := f1 |}]>
                         (registration c2 topic1)
                  else registration c2 t) →
            ∀ t, registration c12 t = registration c21 t).
  { intros c12 c21 H12 H21 t. rewrite H12, H21, !Hreg1, !Hreg2.
    destruct (decide (topic1 = topic2)) as [Heq|Hne].
    - destruct Hdiff as [?|Hid]; [done|]. subst topic2.
      rewrite !(decide_True (P := topic1 = topic1)) by done.
      case_decide; [|done]. by apply insert_insert_ne.
    - rewrite (decide_False (P := topic2 = topic1)) by done.
      destruct (decide (t = topic2)) as [->|Ht2].
      + by rewrite (decide_False (P := topic2 = topic1)) by done.
      + done. }
  destruct (decide (GetMetadata s1 = GetMetadata s2)) as [Hl|Hl].
  - rewrite <- Hl in *. simplify_eq.
    destruct (Subscribe_spec c1 h1 s2 topic2 f2 (<[subTopic +:+ topic1 := VString topic1]> m1) Hwf1)
      as (c12 & Hs12 & _ & Hreg12); [by rewrite <- Hl; apply lookup_insert_eq|].
    destruct (Subscribe_spec c2 h2 s1 topic1 f1 (<[subTopic +:+ topic2 := VString topic2]> m1) Hwf2)
      as (c21 & Hs21 & _ & Hreg21); [rewrite Hl; apply lookup_insert_eq|].
    rewrite <- Hl in Hs12. unfold h1 in Hs12 at 2. rewrite insert_insert_eq in Hs12.
    unfold h2 in Hs21 at 2. rewrite <- Hl, insert_insert_eq in Hs21.
    assert (Hstores : <[subTopic +:+ topic2 := VString topic2]> (<[subTopic +:+ topic1 := VString topic1]> m1) =
                      <[subTopic +:+ topic1 := VString topic1]> (<[subTopic +:+ topic2 := VString topic2]> m1)).
    { destruct (decide (topic1 = topic2)) as [->|Hne]; [done|].
      apply insert_insert_ne. by intros ?%subTopic_inj. }
    rewrite <- Hstores in Hs21.
    eexists c1, h1, c2, h2, c12, c21, _. repeat (split; [done|]). by apply Hregs.
  - destruct (Subscribe_spec c1 h1 s2 topic2 f2 m2 Hwf1)
      as (c12 & Hs12 & _ & Hreg12); [by unfold h1; rewrite lookup_insert_ne|].
    destruct (Subscribe_spec c2 h2 s1 topic1 f1 m1 Hwf2)
      as (c21 & Hs21 & _ & Hreg21); [by unfold h2; rewrite lookup_insert_ne|].
    unfold h2 in Hs21 at 2. rewrite insert_insert_ne in Hs21 by done.
    fold h1 in Hs21.
    eexists c1, h1, c2, h2, c12, c21, _. repeat (split; [done|]). by apply Hregs.
Qed.

(** ** Publishing after unsubscribing *)

Lemma Publish_skips_unregistered c topic msg (r : Run) sid :
  wf_emitter c → registration c topic !! sid = None →
  ∃ evs w',
    Publish c topic msg r = Some (w', r.2 ++ evs) ∧
    length evs = size (registration c topic) ∧
    events_of sid evs = [].
Proof.
  intros Hwf Hnone.
  destruct (Publish_delivers c topic msg r Hwf) as (elems & evs & w' & Hperm & Hdel & Hrun).
  destruct (registration_elems c topic elems Hwf Hperm) as [Hkeys Hnd].
  exists evs, w'. split; [done|]. split.
  - rewrite (delivers_length _ _ _ _ _ Hdel), Hperm. apply length_map_to_list.
  - eapply delivers_events_absent; [done..|].
    rewrite Hperm. intros [[sid' v] [-> Hin]]%list_elem_of_fmap.
    apply elem_of_map_to_list in Hin. cbn in Hnone. congruence.
Qed.


(** X19.  After [UnSubscribeAll] of [s], in a state where the store of [s]
    names every topic [s] is registered to, no publish to any topic makes a
    call for the id of [s]. *)
Theorem Publish_after_UnSubscribeAll c h s (m : gmap string any) topic msg (r : Run) :
  wf_emitter c → h !! GetMetadata s = Some m → store_ok m →
  (∀ t, registered c s t → is_Some (m !! (subTopic +:+ t))) →
  ∃ c' h' evs w',
    UnSubscribeAll c h s = Some (c', h') ∧
    Publish c' topic msg r = Some (w', r.2 ++ evs) ∧
    events_of (GetSubscriberID s) evs = [].
Proof.
  intros Hwf Hm Hok Hsync.
  destruct (UnSubscribeAll_run c h s m Hwf Hm Hok) as (c' & Hrun & Hwf' & Hreg).
  destruct (Publish_skips_unregistered c' topic msg r (GetSubscriberID s) Hwf')
    as (evs & w' & Hpub & _ & Hnone).
  { rewrite Hreg. case_decide as Hin; [apply lookup_delete_eq|].
    apply eq_None_not_Some. intros Hreg0. by apply Hin, Hsync. }
  eexists c', _, evs, w'. split; [exact Hrun|]. split; [done|done].
Qed.

End emitter_more.

(** ** New subscribers *)

Section new_subscribers.

Context `{!GoRuntime}.

(** X16.  [NewSubscriber] gives a subscriber whose store is new: it was at
    no location in use, it is empty, no other store has changed, the
    subscriber has no topics, and any emitter can subscribe it. *)
Theorem NewSubscriber_fresh_store rnd h (s : StringSubscriber) h' :
  NewSubscriber rnd h = (s, h') →
  h !! GetMetadata s = None ∧
  h' !! GetMetadata s = Some newSmap ∧
  (∀ l, l ≠ GetMetadata s → h' !! l = h !! l) ∧
  GetTopicsBySubscriber h' s = Some [] ∧
  ∀ (World : Type) (c : @EventEmitter StringSubscriber World) topic f,
    wf_emitter c → is_Some (Subscribe c h' s topic f).
Proof.
  unfold NewSubscriber. intros [= <- <-]. cbn.
  split; [apply not_elem_of_dom, is_fresh|].
  split; [apply lookup_insert_eq|].
  split; [by intros l Hl; rewrite lookup_insert_ne|].
  split.
  - apply (GetTopicsBySubscriber_no_entry _ _ newSmap); [apply lookup_insert_eq|].
    intros k _. apply lookup_empty.
  - intros World c topic f Hwf.
    destruct (Subscribe_spec c (<[fresh (dom h) := newSmap]> h)
                {| id := pretty rnd; md := fresh (dom h) |} topic f newSmap Hwf)
      as (c' & -> & _); [apply lookup_insert_eq|by eexists].
Qed.

(** X17.  Two subscribers made one after the other have different stores,
    and the same id exactly when the two random numbers are the same: they
    are subscribers as the reverse index needs them exactly when the
    numbers differ.  The store of the first is not touched by the making of
    the second. *)
Theorem NewSubscriber_ids rnd1 rnd2 h (s1 s2 : StringSubscriber) h1 h2 :
  NewSubscriber rnd1 h = (s1, h1) → NewSubscriber rnd2 h1 = (s2, h2) →
  GetMetadata s1 ≠ GetMetadata s2 ∧
  (GetSubscriberID s1 = GetSubscriberID s2 ↔ rnd1 = rnd2) ∧
  (distinct_subscribers [s1; s2] ↔ rnd1 ≠ rnd2) ∧
  h2 !! GetMetadata s1 = Some newSmap.
Proof.
  unfold NewSubscriber. intros [= <- <-] [= <- <-]. cbn.
  set (l1 := fresh (dom h)). set (l2 := fresh (dom (<[l1 := newSmap]> h))).
  assert (Hl : l1 ≠ l2).
  { intros Heq. pose proof (is_fresh (dom (<[l1 := newSmap]> h))) as Hfresh.
    fold l2 in Hfresh. rewrite <- Heq in Hfresh. apply Hfresh.
    apply elem_of_dom. rewrite lookup_insert_eq. by eexists. }
  assert (Hid : pretty rnd1 = pretty rnd2 ↔ rnd1 = rnd2).
  { split; [apply (inj pretty)|by intros ->]. }
  split; [done|]. split; [done|]. split.
  - split.
    + intros Hdist ->.
      apply Hl, (Hdist {| id := pretty rnd2; md := l1 |}
                       {| id := pretty rnd2; md := l2 |});
        [by left|by right; left|done].
    + intros Hne s s' Hs Hs'.
      apply elem_of_cons in Hs as [->|Hs];
        [|apply list_elem_of_singleton in Hs as ->];
        (apply elem_of_cons in Hs' as [->|Hs'];
           [|apply list_elem_of_singleton in Hs' as ->]);
        cbn; split; try done; intros Heq; try (by destruct Hl);
        first [by apply Hid in Heq | symmetry in Heq; by apply Hid in Heq].
  - by rewrite lookup_insert_ne, lookup_insert_eq.
Qed.

End new_subscribers.

(** ** The further properties at the sample data *)

Lemma sample_emitter_routed : routed sample_emitter.
Proof.
  intros i b topic Hi _. apply lookup_lt_Some in Hi. cbn in Hi.
  assert (getBucket_index sample_emitter topic = 0%nat) as -> by reflexivity.
  lia.
Qed.

Lemma New_single_bucket :
  @New StringSubscriber nat 63 (Some {| BucketNum := 1; BucketSize := 0 |}) 0 =
    Some single_bucket.
Proof. reflexivity. Qed.


Lemma news_has_no_subscriber : registration sample_emitter "news" = ∅.
Proof. reflexivity. Qed.

Lemma sample_heap_ok : stores_ok [alice; bob] sample_heap.
Proof.
  intros s Hs. exists newSmap. split.
  - apply elem_of_cons in Hs as [->|Hs];
      [|apply list_elem_of_singleton in Hs as ->]; reflexivity.
  - intros k v Hk. unfold newSmap in Hk. by rewrite lookup_empty in Hk.
Qed.

Lemma getBucket_index_is_remainder_witness :
  wf_emitter sample_emitter ∧
  is_Some (getBucket sample_emitter "test") ∧
  Z.of_nat (getBucket_index sample_emitter "test") =
    to_uint64 (maphash_String (seed sample_emitter) "test")
      `mod` BucketNum (conf sample_emitter).
Proof.
  split; [exact sample_emitter_wf|].
  exact (getBucket_index_is_remainder sample_emitter "test" sample_emitter_wf).
Defined.

Lemma step_keeps_routing_witness :
  ∃ c' h',
    step (sample_emitter, sample_stores) (OpUnSubscribe alice "test") =
      Some (c', h') ∧
    conf c' = conf sample_emitter ∧
    ∀ topic, getBucket_index c' topic = getBucket_index sample_emitter topic.
Proof.
  destruct (UnSubscribe_spec sample_emitter sample_stores alice "test" alice_store
              sample_emitter_wf eq_refl) as (c' & Hun & _).
  destruct (step_keeps_routing sample_emitter sample_stores
              (OpUnSubscribe alice "test") c' _ Hun) as (Hconf & _ & _ & Hroute).
  eexists c', _. split; [exact Hun|]. split; [exact Hconf|exact Hroute].
Defined.

Lemma New_is_empty_witness :
  @New StringSubscriber nat 63 (Some {| BucketNum := 1; BucketSize := 0 |}) 0 =
    Some single_bucket ∧
  EventEmitter_TopicStatus (@single_bucket StringSubscriber nat) = [] ∧
  ∀ topic, CountSubscriberByTopic (@single_bucket StringSubscriber nat) topic =
             Some 0%nat.
Proof.
  split; [exact New_single_bucket|].
  destruct (New_is_empty 63%nat (Some {| BucketNum := 1; BucketSize := 0 |}) 0
              single_bucket New_single_bucket)
    as (_ & _ & _ & _ & Hcount & Hstatus).
  split; [exact Hstatus|exact Hcount].
Defined.

Lemma Config_init_idempotent_witness :
  Config_init 63 {| BucketNum := 5; BucketSize := -3 |} =
    Some {| BucketNum := 8; BucketSize := 0 |} ∧
  Config_init 63 {| BucketNum := 8; BucketSize := 0 |} =
    Some {| BucketNum := 8; BucketSize := 0 |}.
Proof.
  split; [reflexivity|].
  destruct (Config_init_idempotent 63%nat {| BucketNum := 5; BucketSize := -3 |}
              {| BucketNum := 8; BucketSize := 0 |} eq_refl) as (_ & _ & Hagain).
  apply Hagain. apply le_n.
Defined.

Lemma Subscribe_registers_witness :
  wf_emitter sample_emitter ∧
  sample_stores !! GetMetadata alice = Some alice_store ∧
  store_ok alice_store ∧
  ∃ c' h' topics n,
    Subscribe sample_emitter sample_stores alice "news" count_cb = Some (c', h') ∧
    GetTopicsBySubscriber h' alice = Some topics ∧ "news"%string ∈ topics ∧
    CountSubscriberByTopic c' "news" = Some (S n).
Proof.
  split; [exact sample_emitter_wf|]. split; [reflexivity|].
  split; [exact alice_store_ok|].
  destruct (Subscribe_registers sample_emitter sample_stores alice "news" count_cb
              alice_store sample_emitter_wf eq_refl alice_store_ok)
    as (c' & h' & topics & n & Hsub & Hget & Hin & _ & _ & Hcount).
  exists c', h', topics, n. split; [exact Hsub|]. split; [exact Hget|].
  split; [exact Hin|exact Hcount].
Defined.

Lemma Subscribe_frame_witness :
  wf_emitter sample_emitter ∧
  sample_stores !! GetMetadata alice = Some alice_store ∧
  ∃ c' h',
    Subscribe sample_emitter sample_stores alice "news" count_cb = Some (c', h') ∧
    ∀ t, t ≠ "news"%string → registration c' t = registration sample_emitter t.
Proof.
  split; [exact sample_emitter_wf|]. split; [reflexivity|].
  destruct (Subscribe_frame sample_emitter sample_stores alice "news" count_cb
              alice_store sample_emitter_wf eq_refl)
    as (c' & h' & m' & Hsub & _ & _ & _ & Htopics & _).
  exists c', h'. split; [exact Hsub|exact Htopics].
Defined.

Lemma UnSubscribe_frame_witness :
  wf_emitter sample_emitter ∧
  sample_stores !! GetMetadata alice = Some alice_store ∧
  ∃ c' h',
    UnSubscribe sample_emitter sample_stores alice "test" = Some (c', h') ∧
    Metadata_Load h' (GetMetadata alice) (subTopic +:+ "test") = Some (VNil, false) ∧
    ∀ sid, sid ≠ GetSubscriberID alice →
           registration c' "test" !! sid = registration sample_emitter "test" !! sid.
Proof.
  split; [exact sample_emitter_wf|]. split; [reflexivity|].
  destruct (UnSubscribe_frame sample_emitter sample_stores alice "test"
              alice_store sample_emitter_wf eq_refl)
    as (c' & h' & m' & Hun & _ & Hload & _ & _ & _ & _ & Hids & _).
  exists c', h'. split; [exact Hun|]. split; [exact Hload|exact Hids].
Defined.


Lemma UnSubscribeAll_effect_witness :
  wf_emitter sample_emitter ∧
  sample_stores !! GetMetadata alice = Some alice_store ∧
  store_ok alice_store ∧
  ∃ c' h' (m' : gmap string any),
    UnSubscribeAll sample_emitter sample_stores alice = Some (c', h') ∧
    h' !! GetMetadata alice = Some m' ∧
    ∀ k, m' !! k = if String.prefix subTopic k then None else alice_store !! k.
Proof.
  split; [exact sample_emitter_wf|]. split; [reflexivity|].
  split; [exact alice_store_ok|].
  destruct (UnSubscribeAll_effect sample_emitter sample_stores alice alice_store
              sample_emitter_wf eq_refl alice_store_ok)
    as (c' & h' & m' & Hrun & Hm' & _ & Hkeys & _).
  exists c', h', m'. split; [exact Hrun|]. split; [exact Hm'|exact Hkeys].
Defined.

Lemma TopicStatus_exact_witness :
  routed sample_emitter ∧
  NoDup (Topic <$> EventEmitter_TopicStatus sample_emitter).
Proof.
  split; [exact sample_emitter_routed|].
  exact (proj1 (TopicStatus_exact sample_emitter sample_emitter_routed)).
Defined.

Lemma run_never_panics_witness :
  stores_ok [alice; bob] sample_heap ∧
  ∃ c h,
    run (single_bucket, sample_heap)
      [OpSubscribe alice "test" count_cb; OpSubscribe bob "test" failing_cb;
       OpUnSubscribeAll alice; OpUnSubscribe bob "oh"] = Some (c, h) ∧
    wf_emitter c ∧ routed c.
Proof.
  split; [exact sample_heap_ok|].
  destruct (run_never_panics [alice; bob] 63%nat
              (Some {| BucketNum := 1; BucketSize := 0 |}) 0 single_bucket
              sample_heap
              [OpSubscribe alice "test" count_cb; OpSubscribe bob "test" failing_cb;
               OpUnSubscribeAll alice; OpUnSubscribe bob "oh"]
              New_single_bucket sample_heap_ok)
    as (c & h & Hrun & Hwf & Hrouted & _).
  { repeat constructor. }
  exists c, h. split; [exact Hrun|]. split; [exact Hwf|exact Hrouted].
Defined.

Lemma empty_registration_stays_listed_witness :
  wf_emitter sample_emitter ∧
  sample_stores !! GetMetadata alice = Some alice_store ∧
  registration sample_emitter "news" = ∅ ∧
  ∃ c1 h1 c2 h2,
    Subscribe sample_emitter sample_stores alice "news" count_cb = Some (c1, h1) ∧
    UnSubscribe c1 h1 alice "news" = Some (c2, h2) ∧
    {| Topic := "news"; Count := 0 |} ∈ EventEmitter_TopicStatus c2.
Proof.
  split; [exact sample_emitter_wf|]. split; [reflexivity|].
  split; [exact news_has_no_subscriber|].
  destruct (empty_registration_stays_listed sample_emitter sample_stores alice
              "news" count_cb alice_store sample_emitter_wf eq_refl
              news_has_no_subscriber)
    as (c1 & h1 & c2 & h2 & Hsub & Hun & Hin & _).
  exists c1, h1, c2, h2. split; [exact Hsub|]. split; [exact Hun|exact Hin].
Defined.


Lemma Subscribe_commute_witness :
  wf_emitter (@single_bucket StringSubscriber nat) ∧
  ∃ c1 h1 c2 h2 c12 c21 h',
    Subscribe single_bucket sample_heap alice "test" count_cb = Some (c1, h1) ∧
    Subscribe c1 h1 bob "test" failing_cb = Some (c12, h') ∧
    Subscribe single_bucket sample_heap bob "test" failing_cb = Some (c2, h2) ∧
    Subscribe c2 h2 alice "test" count_cb = Some (c21, h') ∧
    ∀ t, registration c12 t = registration c21 t.
Proof.
  split; [exact single_bucket_wf|].
  apply (Subscribe_commute single_bucket sample_heap alice bob "test" "test"
           count_cb failing_cb single_bucket_wf alice_allocated).
  - eexists. reflexivity.
  - right. discriminate.
Defined.

Lemma NewSubscriber_fresh_store_witness :
  ∃ s h',
    NewSubscriber 42 sample_heap = (s, h') ∧
    sample_heap !! GetMetadata s = None ∧
    GetTopicsBySubscriber h' s = Some [].
Proof.
  destruct (NewSubscriber 42 sample_heap) as [s h'] eqn:Hnew.
  destruct (NewSubscriber_fresh_store 42 sample_heap s h' Hnew)
    as (Hfresh & _ & _ & Htopics & _).
  exists s, h'. split; [reflexivity|]. split; [exact Hfresh|exact Htopics].
Defined.

Lemma NewSubscriber_ids_witness :
  ∃ s1 h1 s2 h2,
    NewSubscriber 7 sample_heap = (s1, h1) ∧ NewSubscriber 7 h1 = (s2, h2) ∧
    GetMetadata s1 ≠ GetMetadata s2 ∧ GetSubscriberID s1 = GetSubscriberID s2.
Proof.
  destruct (NewSubscriber 7 sample_heap) as [s1 h1] eqn:Hnew1.
  destruct (NewSubscriber 7 h1) as [s2 h2] eqn:Hnew2.
  destruct (NewSubscriber_ids 7 7 sample_heap s1 s2 h1 h2 Hnew1 Hnew2)
    as (Hmd & Hid & _).
  exists s1, h1, s2, h2. split; [reflexivity|]. split; [exact Hnew2|].
  split; [exact Hmd|]. apply Hid. reflexivity.
Defined.

Lemma alice_store_in_sync t :
  registered sample_emitter alice t → is_Some (alice_store !! (subTopic +:+ t)).
Proof.
  intros [v Hv]. unfold registration in Hv.
  change (getBucket sample_emitter t) with (buckets sample_emitter !! 0%nat) in Hv.
  cbn in Hv.
  destruct (decide (t = "test"%string)) as [->|Htest]; [by eexists|].
  destruct (decide (t = "oh"%string)) as [->|Hoh]; [by eexists|].
  rewrite !lookup_insert_ne, lookup_empty in Hv by done. cbn in Hv.
  by rewrite lookup_empty in Hv.
Qed.


Lemma Publish_after_UnSubscribeAll_witness :
  wf_emitter sample_emitter ∧
  sample_stores !! GetMetadata alice = Some alice_store ∧
  store_ok alice_store ∧
  ∃ c' h' evs w',
    UnSubscribeAll sample_emitter sample_stores alice = Some (c', h') ∧
    Publish c' "test" (VInt 1) (0%nat, []) = Some (w', evs) ∧
    events_of (GetSubscriberID alice) evs = [].
Proof.
  split; [exact sample_emitter_wf|]. split; [reflexivity|].
  split; [exact alice_store_ok|].
  destruct (Publish_after_UnSubscribeAll sample_emitter sample_stores alice
              alice_store "test" (VInt 1) (0%nat, []) sample_emitter_wf eq_refl
              alice_store_ok alice_store_in_sync)
    as (c' & h' & evs & w' & Hrun & Hpub & Hnone).
  exists c', h', evs, w'. split; [exact Hrun|]. split; [exact Hpub|exact Hnone].
Defined.
